(** * PDF-2-Text: the page-indexed document model and its two pipeline stages

    A shallow embedding of [Module1.py] (PDF to Markdown: per-page
    extraction on a worker pool, page-ordered assembly) and of [Module2.py]
    (rule extraction from the Markdown: page parser, strategy selection,
    sliding windows, consolidation).

    Python [str] values are modelled as lists of characters with code
    points below 256.  On that range the regular expression class [\d] is
    exactly ['0'..'9'] and [str.strip()] removes exactly the code points
    9-13, 28-32, 133 and 160.  Python [int] values are modelled as [Z],
    [dict] values keyed by page number as [gmap Z].  [int()] on a string of
    digits raises [ValueError] beyond the interpreter's limit on the number
    of digits, 4300 unless reconfigured; the integers the program formats
    are page counts and lengths, which lie below it.  The pattern of the
    page parser is kept as a regular expression and run by a backtracking
    matcher; the worker pool of stage 1 is a step relation; stage 2 runs in
    a state-and-error monad that records every call of the analysis
    service.  Progress output ([print]) is left out. *)

From Stdlib Require Import ZArith List Ascii String Bool Lia QArith.
From Stdlib Require Import DecimalString DecimalPos.
From stdpp Require Import base option list list_numbers gmap strings relations.

Open Scope Z_scope.
Open Scope list_scope.

(** ** Text *)

Module Text.

Abbreviation text := (list ascii).

Definition lit (s : string) : text := list_ascii_of_string s.

Definition nl : text := ["010"%char].

(** [s.startswith(p)], returning what follows the prefix. *)
Fixpoint strip_prefix (p s : text) : option text :=
  match p, s with
  | [], _ => Some s
  | _ :: _, [] => None
  | a :: p', b :: s' => if Ascii.eqb a b then strip_prefix p' s' else None
  end.

Definition starts_with (p s : text) : bool :=
  match strip_prefix p s with Some _ => true | None => false end.

(** [sep.join(parts)] *)
Fixpoint join (sep : text) (parts : list text) : text :=
  match parts with
  | [] => []
  | [p] => p
  | p :: ps => p ++ sep ++ join sep ps
  end.

(** The class [\d] and the digits [int()] accepts, on code points < 256. *)
Definition is_digit (c : ascii) : bool :=
  let n := N_of_ascii c in ((48 <=? n) && (n <=? 57))%N.

(** [str.isspace()] on code points < 256. *)
Definition is_space (c : ascii) : bool :=
  let n := N_of_ascii c in
  (((9 <=? n) && (n <=? 13)) || ((28 <=? n) && (n <=? 32))
   || (n =? 133) || (n =? 160))%N.

Fixpoint lstrip (s : text) : text :=
  match s with
  | c :: s' => if is_space c then lstrip s' else s
  | [] => []
  end.

Definition rstrip (s : text) : text := rev (lstrip (rev s)).

(** [s.strip()] *)
Definition strip (s : text) : text := rstrip (lstrip s).

Definition digit_val (c : ascii) : Z := Z.of_N (N_of_ascii c) - 48.

(** The number a string of decimal digits denotes. *)
Definition digits_value (s : text) : Z :=
  fold_left (fun acc c => 10 * acc + digit_val c) s 0.

(** [sys.get_int_max_str_digits()], at its default. *)
Definition int_max_str_digits : nat := 4300.

(** [int(s)] for a string of decimal digits, as matched by [\d+]; [None]
    is the [ValueError] raised for a string of more digits than the
    limit, leading zeros counted. *)
Definition int_of_digits (s : text) : option Z :=
  if (length s <=? int_max_str_digits)%nat then Some (digits_value s) else None.

(** [str(z)], the decimal text an f-string inserts for an [int]. *)
Definition str_of_int (z : Z) : text :=
  lit (NilZero.string_of_int (Z.to_int z)).

End Text.
Import Text.

(** ** Regular expressions

    The fragment of Python's [re] the page pattern uses, with the
    backtracking semantics of the library: alternatives are tried left to
    right, a greedy repetition tries one more iteration before it tries
    the rest of the pattern, a lazy repetition tries the rest of the
    pattern first.  The matcher is written in continuation-passing style:
    [k] is the rest of the pattern, and [None] makes the matcher
    backtrack.  Groups are recorded by number. *)

Module Regex.

Inductive regex : Type :=
  | Eps
  | Chr (c : ascii)
  | Digit
  | AnyChar
  | EndZ
  | Seq (r1 r2 : regex)
  | Alt (r1 r2 : regex)
  | PlusGreedy (r : regex)
  | StarLazy (r : regex)
  | Group (i : nat) (r : regex)
  | Ahead (r : regex).

Fixpoint literal (s : text) : regex :=
  match s with
  | [] => Eps
  | c :: s' => Seq (Chr c) (literal s')
  end.

Section Repetition.

Context {A : Type}.

(** One iteration of the repeated expression, given its continuation. *)
Variable body : text → gmap nat text → (text → gmap nat text → option A) → option A.

(** The rest of the pattern. *)
Variable k : text → gmap nat text → option A.

(** [r+]: an iteration, then further iterations before the rest of the
    pattern.  An iteration that consumes nothing is not repeated; [fuel]
    bounds the number of iterations by the length of the input. *)
Fixpoint greedy_plus (fuel : nat) (s : text) (groups : gmap nat text)
    : option A :=
  match fuel with
  | O => None
  | S fuel' =>
      body s groups
        (fun s1 g1 =>
           if (length s1 <? length s)%nat then
             match greedy_plus fuel' s1 g1 with
             | Some a => Some a
             | None => k s1 g1
             end
           else k s1 g1)
  end.

(** [r*?]: the rest of the pattern first, an iteration only when that
    fails. *)
Fixpoint lazy_star (fuel : nat) (s : text) (groups : gmap nat text)
    : option A :=
  match k s groups with
  | Some a => Some a
  | None =>
      match fuel with
      | O => None
      | S fuel' =>
          body s groups
            (fun s1 g1 =>
               if (length s1 <? length s)%nat then lazy_star fuel' s1 g1
               else None)
      end
  end.

End Repetition.

Fixpoint backtrack {A : Type} (r : regex) (s : text) (groups : gmap nat text)
    (k : text → gmap nat text → option A) {struct r} : option A :=
  match r with
  | Eps => k s groups
  | Chr c =>
      match s with
      | x :: s' => if Ascii.eqb c x then k s' groups else None
      | [] => None
      end
  | Digit =>
      match s with
      | x :: s' => if is_digit x then k s' groups else None
      | [] => None
      end
  | AnyChar =>
      match s with
      | _ :: s' => k s' groups
      | [] => None
      end
  | EndZ =>
      match s with
      | [] => k [] groups
      | _ :: _ => None
      end
  | Seq r1 r2 => backtrack r1 s groups (fun s1 g1 => backtrack r2 s1 g1 k)
  | Alt r1 r2 =>
      match backtrack r1 s groups k with
      | Some a => Some a
      | None => backtrack r2 s groups k
      end
  | PlusGreedy r1 =>
      greedy_plus (fun s0 g0 k0 => backtrack r1 s0 g0 k0) k
                  (S (length s)) s groups
  | StarLazy r1 =>
      lazy_star (fun s0 g0 k0 => backtrack r1 s0 g0 k0) k
                (length s) s groups
  | Group i r1 =>
      backtrack r1 s groups
        (fun s1 g1 => k s1 (<[i := take (length s - length s1) s]> g1))
  | Ahead r1 =>
      match backtrack r1 s groups (fun _ g1 => Some g1) with
      | Some g1 => k s g1
      | None => None
      end
  end.

End Regex.

(** ** Module 2: the page parser *)

Module Parser.

Import Regex.

(** The inter-page separator of the look-ahead, [\n\n---\n\n]. *)
Definition separator : text := nl ++ nl ++ lit "---" ++ nl ++ nl.

(** The literal head of the pattern, [## Page ]. *)
Definition header_lit : text := lit "## Page ".

(** The pattern of [parse_markdown_by_pages],
    [## Page (\d+)\n\n(.*?)(?=\n\n---\n\n|\Z)], compiled with
    [re.DOTALL]. *)
Definition page_pattern : regex :=
  Seq (literal header_lit)
   (Seq (Group 1 (PlusGreedy Digit))
    (Seq (literal (nl ++ nl))
     (Seq (Group 2 (StarLazy AnyChar))
          (Ahead (Alt (literal separator) EndZ))))).

(** One attempt of the pattern at the start of [s]: the two groups and the
    unconsumed remainder. *)
Definition match_here (s : text) : option (text * text * text) :=
  backtrack page_pattern s ∅
    (fun rest groups =>
       Some (default [] (groups !! 1%nat), default [] (groups !! 2%nat), rest)).

(** [re.findall]: scan left to right; after a match resume where it ended,
    otherwise move one character on.  [fuel] bounds the number of scan
    positions; [findall] supplies enough of it. *)
Fixpoint findall_fuel (fuel : nat) (s : text) : list (text * text) :=
  match fuel with
  | O => []
  | S fuel' =>
      match match_here s with
      | Some (ds, content, rest) => (ds, content) :: findall_fuel fuel' rest
      | None =>
          match s with
          | [] => []
          | _ :: s' => findall_fuel fuel' s'
          end
      end
  end.

Definition findall (s : text) : list (text * text) :=
  findall_fuel (S (length s)) s.

(** The loop body [pages[int(page_num)] = content.strip()]; [None] when
    [int] raises. *)
Definition store_page (pages : gmap Z text) (m : text * text)
    : option (gmap Z text) :=
  match int_of_digits m.1 with
  | Some page_num => Some (<[page_num := strip m.2]> pages)
  | None => None
  end.

(** The loop [for page_num, content in matches], left at the first
    [ValueError]. *)
Fixpoint store_pages (matches : list (text * text)) (pages : gmap Z text)
    : option (gmap Z text) :=
  match matches with
  | [] => Some pages
  | m :: rest =>
      match store_page pages m with
      | Some pages' => store_pages rest pages'
      | None => None
      end
  end.

(** [parse_markdown_by_pages(markdown_content)]: the dict returned, or
    [None] for the [ValueError] of a page number of more than 4300
    digits. *)
Definition parse_markdown_by_pages (markdown_content : text)
    : option (gmap Z text) :=
  store_pages (findall markdown_content) ∅.

End Parser.
Import Regex Parser.

(** ** Auxiliary notions used to state the properties *)

(** Greedy [\d*]: the longest run of digits and what follows it. *)
Fixpoint span_digits (s : text) : text * text :=
  match s with
  | c :: s' =>
      if is_digit c then let '(ds, r) := span_digits s' in (c :: ds, r)
      else ([], s)
  | [] => ([], [])
  end.

(** Lazy [(.*?)(?=\n\n---\n\n|\Z)] under [re.DOTALL]: the shortest prefix
    after which the separator follows or the input ends; the look-ahead
    consumes nothing, so the remainder starts at the separator. *)
Fixpoint lazy_until_sep (s : text) : text * text :=
  match s with
  | [] => ([], [])
  | c :: s' =>
      if starts_with separator s then ([], s)
      else let '(a, r) := lazy_until_sep s' in (c :: a, r)
  end.

(** What one attempt of the page pattern comes to: the literal head, the
    longest run of digits, two newlines, the content up to the first
    separator or the end of the input.  The greedy [\d+] never needs to
    give a digit back, because the next pattern character is a newline. *)
Definition match_direct (s : text) : option (text * text * text) :=
  match strip_prefix header_lit s with
  | None => None
  | Some s1 =>
      match span_digits s1 with
      | ([], _) => None
      | (ds, s2) =>
          match strip_prefix (nl ++ nl) s2 with
          | None => None
          | Some s3 =>
              let '(content, rest) := lazy_until_sep s3 in
              Some (ds, content, rest)
          end
      end
  end.

(** Where the look-ahead [(?=\n\n---\n\n|\Z)] succeeds. *)
Definition at_boundary (t : text) : bool :=
  starts_with separator t || match t with [] => true | _ :: _ => false end.

(** One step of the evaluation of a digit string. *)
Definition int_step (acc : Z) (c : ascii) : Z := 10 * acc + digit_val c.

(** A match whose page number [int] converts. *)
Definition convertible (m : text * text) : Prop :=
  (length m.1 <= int_max_str_digits)%nat.

(** The dict the parser's loop builds from the matches when every page
    number converts: each match stored under the value of its digits, a
    later match replacing an earlier one of the same value. *)
Definition stored_page (pages : gmap Z text) (m : text * text) : gmap Z text :=
  <[digits_value m.1 := strip m.2]> pages.

Definition parsed (s : text) : gmap Z text :=
  fold_left stored_page (findall s) ∅.

(** The least number above those [str] formats in at most 4300 digits. *)
Definition str_digits_bound : Z := 10 ^ Z.of_nat int_max_str_digits.

(** The separator, if any, first occurs in [a ++ r] right after [a]:
    [r] is empty or starts with the separator, and no separator starts at
    a position inside [a]. *)
Definition first_separator_at (a r : text) : Prop :=
  (r = [] ∨ starts_with separator r = true) ∧
  ∀ k, (k < length a)%nat → starts_with separator (drop k (a ++ r)) = false.

(** What [findall] reports is a match of the pattern inside the input. *)
Definition page_match_in (s : text) (m : text * text) : Prop :=
  ∃ pre rest, s = pre ++ header_lit ++ m.1 ++ nl ++ nl ++ m.2 ++ rest
    ∧ m.1 ≠ [] ∧ forallb is_digit m.1 = true ∧ first_separator_at m.2 rest.

(** ** Outcomes of the external services

    A call of [client.chat.completions.create] either returns the message
    content or raises an exception; [cause] is the text [str(e)] of the
    exception. *)
Inductive outcome : Type :=
  | Returned (content : text)
  | Raised (cause : text).

(** [range(a, b)] *)
Definition range (a b : Z) : list Z := seqZ a (b - a).

(** [dict(pairs)]: pairs are stored in iteration order, a later pair
    replaces an earlier one with the same key. *)
Definition dict_of_pairs (pairs : list (Z * text)) : gmap Z text :=
  fold_left (fun d kv => <[kv.1 := kv.2]> d) pairs ∅.

(** ** Module 1: per-page extraction on a worker pool and assembly *)

Module Module1.

Section Coordinator.

(** The outcome of the extraction call issued for page [page_num] with the
    image [img_b64]. *)
Variable extraction_call : Z → text → outcome.

Definition extract_page (img_b64 : text) (page_num : Z) : Z * text :=
  match extraction_call page_num img_b64 with
  | Returned content => (page_num, content)
  | Raised e => (page_num, lit "[Error: " ++ e ++ lit "]")
  end.

(** State of the [ThreadPoolExecutor] after all tasks were submitted:
    tasks are numbered by submission index; the first [started] of them
    have been handed to a worker, [running] are in flight, and [futures]
    holds the result of every task that completed. *)
Record pool : Type := Pool {
  started : nat;
  running : list nat;
  futures : list (option (Z * text))
}.

Definition submit_all (images : list text) : pool :=
  Pool 0 [] (replicate (length images) None).

(** One scheduling step under the bound [max_workers]: the next queued
    task is started when a worker is free, or some task in flight
    completes and fills its future.  Task [j] is
    [extract_page(images[j], j + 1)], from [enumerate(images, 1)]. *)
Inductive pool_step (images : list text) (max_workers : Z) : pool → pool → Prop :=
  | step_start st :
      (started st < length images)%nat →
      Z.of_nat (length (running st)) < max_workers →
      pool_step images max_workers st
        (Pool (S (started st)) (running st ++ [started st]) (futures st))
  | step_finish st j img :
      j ∈ running st →
      images !! j = Some img →
      pool_step images max_workers st
        (Pool (started st)
              (filter (fun k => k ≠ j) (running st))
              (<[j := Some (extract_page img (Z.of_nat j + 1))]> (futures st))).

(** [f.result() for f in futures]: available once every future is filled,
    read in submission order. *)
Definition gather (st : pool) : option (list (Z * text)) :=
  mapM id (futures st).

(** [extract_parallel(images, max_workers)] returns [results] along some
    schedule of the pool.  The executor rejects [max_workers <= 0]. *)
Definition extract_parallel (images : list text) (max_workers : Z)
    (results : gmap Z text) : Prop :=
  1 <= max_workers ∧
  ∃ st pairs, rtc (pool_step images max_workers) (submit_all images) st
    ∧ gather st = Some pairs ∧ results = dict_of_pairs pairs.

End Coordinator.

(** The pieces appended to [md] by the assembly loop for page [i]. *)
Definition md_page (pages : gmap Z text) (i : Z) : list text :=
  [ lit "## Page " ++ str_of_int i ++ nl ++ nl;
    default (lit "[Missing]") (pages !! i);
    nl ++ nl ++ lit "---" ++ nl ++ nl ].

(** The list [md] of [pdf_to_markdown]: title line, page-count and date
    line, then the pages [1..total].  [name] is [Path(pdf_path).name],
    [date] the time stamp formatted when the list is built, after
    [extract_parallel] has returned, [total] is [info["Pages"]]. *)
Definition md_pieces (name date : text) (total : Z) (pages : gmap Z text)
    : list text :=
  [ lit "# " ++ name ++ nl;
    lit "**Pages:** " ++ str_of_int total ++ lit " | **Date:** " ++ date
      ++ nl ++ nl ++ lit "---" ++ nl ++ nl ]
  ++ flat_map (md_page pages) (range 1 (total + 1)).

(** The text written to the output file: the pieces of [md] joined on the
    empty string. *)
Definition document (md : list text) : text := concat md.

(** [pdf_to_markdown] from the rendered images on: extraction on the pool,
    then assembly with the page count [total] that [pdfinfo_from_path]
    reported and the time stamp [date] read at that point. *)
Definition pdf_to_markdown (extraction_call : Z → text → outcome)
    (name date : text) (total : Z) (images : list text) (workers : Z)
    (out : text) : Prop :=
  ∃ pages, extract_parallel extraction_call images workers pages
    ∧ out = document (md_pieces name date total pages).

End Module1.

(** ** Module 2: strategy selection, sliding windows, consolidation

    The nested f-string of [consolidation_prompt] carries backslash
    escapes inside a replacement field, which Python accepts from version
    3.12 on; the embedding follows that reading, [\n] being a newline. *)

Module Module2.

Inductive role : Type := System | User.

(** The keyword arguments of [client.chat.completions.create]. *)
Record request : Type := Request {
  model : string;
  messages : list (role * text);
  temperature : Q;
  max_tokens : Z
}.

Inductive exn : Type :=
  | FileNotFoundError (path : text)
  | KeyError (key : Z)
  | ValueError
  | ServiceError (cause : text).

Inductive result (A : Type) : Type :=
  | Ok (a : A)
  | Raise (e : exn).
Arguments Ok {A} a.
Arguments Raise {A} e.

Definition lines (ls : list string) : text := join nl (map lit ls).

(** A call of [parse_markdown_by_pages]: its dict, or its [ValueError]. *)
Definition parse_pages (markdown_content : text) : result (gmap Z text) :=
  match parse_markdown_by_pages markdown_content with
  | Some pages => Ok pages
  | None => Raise ValueError
  end.

(** The triple-quoted literal of [extract_rules_from_markdown_single_pass],
    one entry per line. *)
Definition single_pass_prompt_lines : list string :=
  [ EmptyString;
    "You are an expert document analyst specializing in extracting rules, guidelines, and constraints.";
    EmptyString;
    "Your task:";
    "1. Analyze the complete markdown document provided";
    "2. Identify ALL rules, guidelines, constraints, instructions, or requirements";
    "3. Track which pages contain each rule";
    "4. If a rule spans multiple pages, note the page range";
    "5. Preserve the complete context of each rule";
    EmptyString;
    "Output format:";
    EmptyString;
    "DOCUMENT SUMMARY:";
    "<2-4 sentence overview of the document>";
    EmptyString;
    "EXTRACTED RULES:";
    "[Page X] Rule 1: <complete rule description>";
    "[Page Y-Z] Rule 2: <rule spanning pages Y to Z>";
    "[Page Z] Rule 3: <another rule>";
    EmptyString;
    "CROSS-PAGE OBSERVATIONS:";
    "<Note any rules or content that continues across multiple pages>";
    EmptyString;
    "NOTES:";
    "<Additional context or observations>";
    EmptyString ].

(** The triple-quoted literal of the sliding-window system prompt. *)
Definition window_prompt_lines : list string :=
  [ EmptyString;
    "You are analyzing a section of a larger document.";
    EmptyString;
    "Extract:";
    "1. All rules, guidelines, and constraints in these pages";
    "2. Note if any rule appears incomplete (continues from previous or to next pages)";
    "3. Include page numbers for each rule";
    EmptyString;
    "Format:";
    "[Page X] Rule: <rule text>";
    EmptyString;
    "If incomplete:";
    "[Page X] INCOMPLETE: <description of what continues>";
    EmptyString ].

(** The f-string literal of [consolidation_prompt], cut at its two
    replacement fields: before [{total_pages}], between the fields, and
    after the joined window reports. *)
Definition consolidation_lines_1 : list string :=
  [ EmptyString;
    "You have received rule extractions from a " ].

Definition consolidation_lines_2 : list string :=
  [ "-page document, processed in overlapping windows.";
    EmptyString;
    "Your task:";
    "1. Merge duplicate rules (same rule extracted multiple times)";
    "2. Combine incomplete rules split across windows";
    "3. Remove redundancy while keeping all unique rules";
    "4. Create a final clean list with page references";
    EmptyString;
    "Extractions:";
    EmptyString;
    EmptyString ].

Definition consolidation_lines_3 : list string :=
  [ EmptyString;
    EmptyString;
    "Provide consolidated output:";
    EmptyString;
    "DOCUMENT SUMMARY:";
    "<brief summary>";
    EmptyString;
    "CONSOLIDATED RULES:";
    "[Page X] Rule 1: <complete rule>";
    "[Page Y-Z] Rule 2: <rule spanning pages>";
    EmptyString;
    "NOTES:";
    "<Observations about cross-page rules>";
    EmptyString ].

(** The three strings the window loop and the consolidation step format
    around their fields. *)
Definition window_entry (page_num : Z) (content : text) : text :=
  lit "## Page " ++ str_of_int page_num ++ nl ++ nl ++ content ++ nl.

Definition window_user_content (start_page end_page i : Z) (combined_content : text)
    : text :=
  lit "Analyzing pages " ++ str_of_int start_page ++ lit "-"
    ++ str_of_int end_page ++ lit ", focusing on page " ++ str_of_int i
    ++ lit ":" ++ nl ++ nl ++ combined_content.

(** [f"=== WINDOW {i+1} ===\n{ext}\n"] for the pair [(i, ext)] of
    [enumerate(all_extractions)]. *)
Definition window_label (i : nat) (ext : text) : text :=
  lit "=== WINDOW " ++ str_of_int (Z.of_nat i + 1) ++ lit " ===" ++ nl
    ++ ext ++ nl.

Definition labeled_extractions (all_extractions : list text) : text :=
  join nl (imap window_label all_extractions).

Definition consolidation_prompt (total_pages : Z) (all_extractions : list text)
    : text :=
  lines consolidation_lines_1 ++ str_of_int total_pages
    ++ lines consolidation_lines_2 ++ labeled_extractions all_extractions
    ++ lines consolidation_lines_3.

Definition single_pass_request (markdown_content : text) : request :=
  Request "gpt-4o"
    [ (System, strip (lines single_pass_prompt_lines));
      (User, lit "Analyze this document and extract all rules:" ++ nl ++ nl
               ++ markdown_content) ]
    (2 # 10) 4000.

Definition window_request (start_page end_page i : Z) (combined_content : text)
    : request :=
  Request "gpt-4o"
    [ (System, strip (lines window_prompt_lines));
      (User, window_user_content start_page end_page i combined_content) ]
    (2 # 10) 1500.

Definition consolidation_request (total_pages : Z) (all_extractions : list text)
    : request :=
  Request "gpt-4o"
    [ (User, consolidation_prompt total_pages all_extractions) ]
    (2 # 10) 4000.

(** [start_page] and [end_page] of the window that focuses on page [i]. *)
Definition start_page (i : Z) : Z := Z.max 1 (i - 1).
Definition end_page (total_pages i : Z) : Z := Z.min total_pages (i + 1).
Definition window_pages (total_pages i : Z) : list Z :=
  range (start_page i) (end_page total_pages i + 1).

(** The inner loop that fills [window_content]; the subscript
    [pages[page_num]] raises [KeyError] on an absent key. *)
Fixpoint window_content (pages : gmap Z text) (page_nums : list Z)
    : result (list text) :=
  match page_nums with
  | [] => Ok []
  | page_num :: rest =>
      match pages !! page_num with
      | None => Raise (KeyError page_num)
      | Some content =>
          match window_content pages rest with
          | Ok entries => Ok (window_entry page_num content :: entries)
          | Raise e => Raise e
          end
      end
  end.

(** The banner and metadata written in front of the report. *)
Definition report_file (markdown_path : text) (total_pages : Z) (report : text)
    : text :=
  concat (replicate 70 (lit "=")) ++ nl
    ++ lit "RULE EXTRACTION RESULTS" ++ nl
    ++ lit "Source Markdown: " ++ markdown_path ++ nl
    ++ lit "Total Pages: " ++ str_of_int total_pages ++ nl
    ++ concat (replicate 70 (lit "=")) ++ nl ++ nl
    ++ report.

Inductive strategy : Type := SinglePass | SlidingWindow.

(** The decision of [extract_rules_from_markdown]: the caller's flag, or
    [total_pages > 10] when it is [None]. *)
Definition wants_sliding_window (total_pages : Z) (use_sliding_window : option bool)
    : bool :=
  match use_sliding_window with
  | None => total_pages >? 10
  | Some flag => flag
  end.

(** The strategy that is carried out, with the guard [total_pages <= 3] at
    the head of [extract_rules_from_markdown_sliding_window]. *)
Definition effective_strategy (total_pages : Z) (use_sliding_window : option bool)
    : strategy :=
  if wants_sliding_window total_pages use_sliding_window
  then if total_pages <=? 3 then SinglePass else SlidingWindow
  else SinglePass.

Section Analysis.

(** The analysis service: a call answers from its state [service] and
    moves to a next state. *)
Context {service : Type}.
Variable create : request → service → outcome * service.

(** What a stage-2 run can touch: the service, the files, and the record
    of the calls it made with their outcomes. *)
Record world : Type := World {
  svc : service;
  files : gmap string text;
  calls : list (request * outcome)
}.

Definition M (A : Type) : Type := world → result A * world.

Definition ret {A} (a : A) : M A := fun w => (Ok a, w).
Definition raise {A} (e : exn) : M A := fun w => (Raise e, w).
Definition bind {A B} (m : M A) (k : A → M B) : M B :=
  fun w => match m w with
           | (Ok a, w') => k a w'
           | (Raise e, w') => (Raise e, w')
           end.
Definition lift {A} (r : result A) : M A := fun w => (r, w).

Notation "'do' x <- m ; k" := (bind m (fun x => k))
  (at level 10, x name, m at level 100, k at level 200).

(** [client.chat.completions.create(...)] followed by
    [response.choices[0].message.content]. *)
Definition chat (req : request) : M text :=
  fun w =>
    let '(o, s') := create req (svc w) in
    let w' := World s' (files w) (calls w ++ [(req, o)]) in
    match o with
    | Returned content => (Ok content, w')
    | Raised cause => (Raise (ServiceError cause), w')
    end.

Definition load_markdown_file (markdown_path : string) : M text :=
  fun w =>
    match files w !! markdown_path with
    | Some content => (Ok content, w)
    | None => (Raise (FileNotFoundError (lit markdown_path)), w)
    end.

Definition write_file (path : string) (content : text) : M unit :=
  fun w => (Ok tt, World (svc w) (<[path := content]> (files w)) (calls w)).

Definition extract_rules_from_markdown_single_pass (markdown_content : text)
    : M text :=
  chat (single_pass_request markdown_content).

(** The [for i in range(1, total_pages + 1)] loop, over the remaining
    values of [i], with [all_extractions] as accumulated so far. *)
Fixpoint window_loop (pages : gmap Z text) (total_pages : Z) (remaining : list Z)
    (all_extractions : list text) : M (list text) :=
  match remaining with
  | [] => ret all_extractions
  | i :: remaining' =>
      do window_content <- lift (window_content pages (window_pages total_pages i));
      let combined_content := join nl window_content in
      do response <- chat (window_request (start_page i) (end_page total_pages i)
                                          i combined_content);
      window_loop pages total_pages remaining' (all_extractions ++ [response])
  end.

(** The part of the sliding-window function behind the small-document
    guard: all windows, then the consolidation call. *)
Definition windows_then_consolidate (pages : gmap Z text) (total_pages : Z)
    : M text :=
  do all_extractions <- window_loop pages total_pages (range 1 (total_pages + 1)) [];
  chat (consolidation_request total_pages all_extractions).

Definition extract_rules_from_markdown_sliding_window (markdown_content : text)
    : M text :=
  do pages <- lift (parse_pages markdown_content);
  let total_pages := Z.of_nat (size pages) in
  if total_pages <=? 3
  then extract_rules_from_markdown_single_pass markdown_content
  else windows_then_consolidate pages total_pages.

Definition extract_rules_from_markdown (markdown_path output_file : string)
    (use_sliding_window : option bool) : M string :=
  do markdown_content <- load_markdown_file markdown_path;
  do pages <- lift (parse_pages markdown_content);
  let total_pages := Z.of_nat (size pages) in
  let use_sliding_window := wants_sliding_window total_pages use_sliding_window in
  do result <- (if use_sliding_window
                then extract_rules_from_markdown_sliding_window markdown_content
                else extract_rules_from_markdown_single_pass markdown_content);
  do _ <- write_file output_file
            (report_file (lit markdown_path) total_pages result);
  ret output_file.

End Analysis.

Arguments world : clear implicits.
Arguments M : clear implicits.

End Module2.

(** ** The page document between the two stages

    A page document is given by the contents of its pages in page order.
    [page_map] is the dict the coordinator holds for it, and
    [serialize_pages] the page sections the assembly loop of Module 1
    writes for that dict. *)

Definition page_map (contents : list text) : gmap Z text :=
  dict_of_pairs (imap (fun j c => (Z.of_nat j + 1, c)) contents).

Definition serialize_pages (contents : list text) : text :=
  Module1.document
    (flat_map (Module1.md_page (page_map contents))
              (range 1 (Z.of_nat (length contents) + 1))).

(** The same sections written out page by page, starting at number [k]. *)
Fixpoint sections_from (k : Z) (contents : list text) : text :=
  match contents with
  | [] => []
  | c :: rest =>
      (header_lit ++ str_of_int k ++ nl ++ nl) ++ c ++ separator
        ++ sections_from (k + 1) rest
  end.

(** The matches [findall] is to report on [sections_from k contents]. *)
Fixpoint section_matches (k : Z) (contents : list text) : list (text * text) :=
  match contents with
  | [] => []
  | c :: rest => (str_of_int k, c) :: section_matches (k + 1) rest
  end.

(** ** Notions used to state the coordinator's properties *)

Section CoordinatorNotions.

Variable extraction_call : Z → text → outcome.

(** The entry each page task produces, in page order: the second component
    of [extract_page(images[j], j + 1)]. *)
Definition extracted (images : list text) : list text :=
  imap (fun j img => (Module1.extract_page extraction_call img (Z.of_nat j + 1)).2)
       images.

(** Where a task stands in the pool. *)
Inductive task_state : Type := Queued | InFlight | Completed.

Definition task_in (images : list text) (st : Module1.pool) (j : nat)
    (s : task_state) : Prop :=
  match s with
  | Queued =>
      (Module1.started st <= j)%nat ∧ (j ∉ Module1.running st)
      ∧ Module1.futures st !! j = Some None
  | InFlight =>
      (j < Module1.started st)%nat ∧ (j ∈ Module1.running st)
      ∧ Module1.futures st !! j = Some None
  | Completed =>
      (j < Module1.started st)%nat ∧ (j ∉ Module1.running st)
      ∧ ∃ img, images !! j = Some img
          ∧ Module1.futures st !! j
            = Some (Some (Module1.extract_page extraction_call img (Z.of_nat j + 1)))
  end.

(** Invariant of the pool: every submitted task is queued, in flight or
    completed with the result of its own call. *)
Definition pool_inv (images : list text) (st : Module1.pool) : Prop :=
  length (Module1.futures st) = length images
  ∧ (Module1.started st <= length images)%nat
  ∧ (∀ j, j ∈ Module1.running st → (j < Module1.started st)%nat)
  ∧ ∀ j, (j < length images)%nat → ∃ s, task_in images st j s.

(** Scheduling steps still ahead of a pool state. *)
Definition steps_left (images : list text) (st : Module1.pool) : nat :=
  2 * (length images - Module1.started st) + length (Module1.running st).

End CoordinatorNotions.

(** The three pieces of one page section, and the sections of the pages
    [k, k+1, ...] with the given contents. *)
Definition section_pieces (i : Z) (content : text) : list text :=
  [ lit "## Page " ++ str_of_int i ++ nl ++ nl;
    content;
    nl ++ nl ++ lit "---" ++ nl ++ nl ].

Definition page_sections (k : Z) (contents : list text) : list text :=
  concat (imap (fun j c => section_pieces (k + Z.of_nat j) c) contents).

Definition md_head (name date : text) (total : Z) : list text :=
  [ lit "# " ++ name ++ nl;
    lit "**Pages:** " ++ str_of_int total ++ lit " | **Date:** " ++ date
      ++ nl ++ nl ++ lit "---" ++ nl ++ nl ].

(** ** Notions used to state the properties of stage-2 runs *)

(** The page map has exactly the keys [1..P], [P] being its size. *)
Definition contiguous (pages : gmap Z text) : Prop :=
  ∀ k, is_Some (pages !! k) ↔ 1 <= k <= Z.of_nat (size pages).

(** A recorded call that returned normally. *)
Definition returned (c : Module2.request * outcome) : Prop :=
  ∃ content, c.2 = Returned content.

(** A service none of whose calls raises. *)
Definition never_raises {service : Type}
    (create : Module2.request → service → outcome * service) : Prop :=
  ∀ req s, ∃ content, (create req s).1 = Returned content.

(** A recorded call carries the answer the service gave to its request. *)
Definition answered {service : Type}
    (create : Module2.request → service → outcome * service)
    (c : Module2.request * outcome) : Prop :=
  ∃ s, c.2 = (create c.1 s).1.

(** The request the loop sends for the window that focuses on page [i],
    when all pages of the window are present. *)
Definition window_request_of (pages : gmap Z text) (total_pages i : Z)
    : option Module2.request :=
  match Module2.window_content pages (Module2.window_pages total_pages i) with
  | Module2.Ok entries =>
      Some (Module2.window_request (Module2.start_page i)
              (Module2.end_page total_pages i) i (join nl entries))
  | Module2.Raise _ => None
  end.

(** The recorded calls [new] are the window requests of the focus pages
    [focus], in order, and they returned [reports]. *)
Definition window_calls (pages : gmap Z text) (total_pages : Z)
    (focus : list Z) (reports : list text)
    (new : list (Module2.request * outcome)) : Prop :=
  Forall2 (fun i c => window_request_of pages total_pages i = Some c.1) focus new
  ∧ new.*2 = Returned <$> reports.

(** Fail-fast discipline of a run that made the calls [new] and ended
    with [r]: a normal end saw only calls that returned; an exceptional
    end saw returning calls and then either a call that raised, whose
    error is the one propagated, or an error that is not the service's. *)
Definition fail_fast {A} (new : list (Module2.request * outcome))
    (r : Module2.result A) : Prop :=
  match r with
  | Module2.Ok _ => Forall returned new
  | Module2.Raise e =>
      ∃ pre, Forall returned pre
        ∧ ((new = pre ∧ ∀ cause, e ≠ Module2.ServiceError cause)
           ∨ ∃ req cause, new = pre ++ [(req, Raised cause)]
                          ∧ e = Module2.ServiceError cause)
  end.

(** The analysis a stage-2 run performs on the document text and the
    page map parsed from it, by its effective strategy. *)
Definition analysis {service : Type}
    (create : Module2.request → service → outcome * service)
    (markdown_content : text) (pages : gmap Z text)
    (use_sliding_window : option bool) : Module2.M service text :=
  let total_pages := Z.of_nat (size pages) in
  match Module2.effective_strategy total_pages use_sliding_window with
  | Module2.SinglePass =>
      Module2.extract_rules_from_markdown_single_pass create markdown_content
  | Module2.SlidingWindow =>
      Module2.windows_then_consolidate create pages total_pages
  end.

(** ** Concrete inputs for the examples *)

(** Two sections that carry the same page number. *)
Definition twice_page_7 : text :=
  lit "## Page 7" ++ nl ++ nl ++ lit "old" ++ separator
  ++ lit "## Page 7" ++ nl ++ nl ++ lit "new" ++ separator.

(** Page 1 twice, the second time written with 4300 leading zeros. *)
Definition page_1_twice_long : text :=
  lit "## Page 1" ++ nl ++ nl ++ lit "old" ++ separator
  ++ lit "## Page " ++ repeat "0"%char 4300 ++ lit "1" ++ nl ++ nl
  ++ lit "new" ++ separator.

(** Two pages, with text before the first header and between the
    sections. *)
Definition pages_amid_text : text :=
  lit "intro ## Page 1" ++ nl ++ nl ++ lit "a" ++ separator
  ++ lit "x## Page 2" ++ nl ++ nl ++ lit "b".

(** The input of two headers with no separator between them. *)
Definition two_headers_no_separator : text :=
  lit "## Page 1" ++ nl ++ nl ++ lit "foo" ++ nl ++ nl
  ++ lit "## Page 2" ++ nl ++ nl ++ lit "bar".

(** A page whose content holds a horizontal rule between blank lines. *)
Definition page_with_rule : text :=
  lit "a" ++ nl ++ nl ++ lit "---" ++ nl ++ nl ++ lit "b".

(** A service that fails on page 2 and echoes the image otherwise. *)
Definition fails_on_page_2 (page_num : Z) (img_b64 : text) : outcome :=
  if page_num =? 2 then Raised (lit "timeout") else Returned img_b64.

Definition three_images : list text := [lit "img1"; lit "img2"; lit "img3"].

(** The contents of a four-page document and its serialisation. *)
Definition four_contents : list text :=
  [lit "alpha"; lit "beta"; lit "gamma"; lit "delta"].

Definition four_pages : text := serialize_pages four_contents.

(** A document with the pages 1, 2, 3 and 5: four entries, page 4 absent. *)
Definition gapped_document : text :=
  sections_from 1 [lit "alpha"; lit "beta"; lit "gamma"]
  ++ sections_from 5 [lit "epsilon"].

(** An analysis service that answers its n-th call with [R<n>]. *)
Definition echo_service (req : Module2.request) (n : nat) : outcome * nat :=
  (Returned (lit "R" ++ str_of_int (Z.of_nat n)), S n).

(** An analysis service whose third call raises. *)
Definition flaky_service (req : Module2.request) (n : nat) : outcome * nat :=
  (if (n =? 2)%nat then Raised (lit "rate limit")
   else Returned (lit "R" ++ str_of_int (Z.of_nat n)), S n).

Definition world_with (content : text) : Module2.world nat :=
  Module2.World 0%nat {[ "extracted_content.md"%string := content ]} [].

(** ** Further notions: substrings and the assembled contents *)

(** [p in s] *)
Fixpoint occurs (p s : text) : bool :=
  starts_with p s
  || match s with
     | [] => false
     | _ :: s' => occurs p s'
     end.

(** No [#] in a text. *)
Definition hash_free (s : text) : bool :=
  forallb (fun c => negb (Ascii.eqb c "#")) s.

(** What the assembly loop writes as the content of the pages
    [1..total]: [pages.get(i, "[Missing]")]. *)
Definition assembled_contents (total : Z) (pages : gmap Z text) : list text :=
  (fun i => default (lit "[Missing]") (pages !! i)) <$> range 1 (total + 1).
(** ** Facts about text *)

Section TextFacts.

Lemma strip_prefix_app (p s : text) : strip_prefix p (p ++ s) = Some s.
Proof.
  induction p as [|a p IH]; simpl; [done|].
  by rewrite Ascii.eqb_refl.
Qed.

Lemma strip_prefix_Some (p s r : text) :
  strip_prefix p s = Some r ↔ s = p ++ r.
Proof.
  split; [|intros ->; apply strip_prefix_app].
  revert s; induction p as [|a p IH]; intros s; simpl.
  - by intros [= ->].
  - destruct s as [|b s]; [done|].
    destruct (Ascii.eqb a b) eqn:E; [|done].
    apply Ascii.eqb_eq in E as ->. intros H. by rewrite (IH _ H).
Qed.

Lemma starts_with_app (p s : text) : starts_with p (p ++ s) = true.
Proof. unfold starts_with. by rewrite strip_prefix_app. Qed.

(** *** Decimal numerals *)

Lemma uint_digits (d : Decimal.uint) :
  forallb is_digit (lit (NilEmpty.string_of_uint d)) = true.
Proof. induction d; simpl; auto. Qed.


Lemma int_of_uint_acc (d : Decimal.uint) (acc : positive) :
  fold_left int_step (lit (NilEmpty.string_of_uint d)) (Z.pos acc)
  = Z.pos (Pos.of_uint_acc d acc).
Proof.
  revert acc; induction d; intros acc; simpl; [done|..];
    (etrans; [|apply IHd]); f_equal; unfold int_step, digit_val; simpl; lia.
Qed.

Lemma int_of_uint (d : Decimal.uint) :
  fold_left int_step (lit (NilEmpty.string_of_uint d)) 0
  = Z.of_N (Pos.of_uint d).
Proof.
  induction d; simpl; [done|exact IHd|..];
    (etrans; [|apply int_of_uint_acc]); f_equal.
Qed.

Lemma str_of_int_pos (p : positive) :
  str_of_int (Z.pos p) = lit (NilEmpty.string_of_uint (Pos.to_uint p)).
Proof.
  unfold str_of_int; simpl. unfold NilZero.string_of_uint.
  pose proof (DecimalPos.Unsigned.to_uint_nonnil p) as Hn.
  by destruct (Pos.to_uint p).
Qed.

Lemma str_of_int_digits (z : Z) :
  0 <= z → forallb is_digit (str_of_int z) = true.
Proof.
  destruct z as [|p|p]; [done| |lia]. intros _.
  rewrite str_of_int_pos. apply uint_digits.
Qed.

Lemma str_of_int_nonempty (z : Z) : str_of_int z ≠ [].
Proof.
  destruct z as [|p|p]; [done| |done].
  rewrite str_of_int_pos. pose proof (DecimalPos.Unsigned.to_uint_nonnil p) as Hn.
  by destruct (Pos.to_uint p).
Qed.

(** [int(str(z)) == z] for the page numbers the assembly loop prints. *)
Lemma int_of_str (z : Z) : 0 <= z → digits_value (str_of_int z) = z.
Proof.
  destruct z as [|p|p]; [done| |lia]. intros _.
  rewrite str_of_int_pos. unfold digits_value.
  change (fun acc c => 10 * acc + digit_val c) with int_step.
  rewrite int_of_uint, DecimalPos.Unsigned.of_to. done.
Qed.

(** *** Substrings *)

Lemma starts_with_true (p s : text) :
  starts_with p s = true ↔ ∃ r, s = p ++ r.
Proof.
  unfold starts_with. destruct (strip_prefix p s) as [r|] eqn:E.
  - apply strip_prefix_Some in E. split; eauto.
  - split; [done|]. intros [r Hr]. apply strip_prefix_Some in Hr. congruence.
Qed.

Lemma occurs_spec (p s : text) :
  occurs p s = true ↔ ∃ a b, s = a ++ p ++ b.
Proof.
  induction s as [|c s IH]; cbn [occurs].
  - rewrite orb_false_r, starts_with_true. split.
    + intros [r Hr]. by exists [], r.
    + intros (a & b & Hab). destruct a as [|x a]; [|done].
      exists b. done.
  - rewrite orb_true_iff, IH, starts_with_true. split.
    + intros [[r Hr]|(a & b & ->)]; [by exists [], r|by exists (c :: a), b].
    + intros (a & b & Hab). destruct a as [|x a].
      * left. by exists b.
      * right. injection Hab as -> ->. by exists a, b.
Qed.

Lemma occurs_app (p a b : text) : occurs p (a ++ p ++ b) = true.
Proof. apply occurs_spec. by exists a, b. Qed.

Lemma occurs_false_tail (p : text) (c : ascii) (s : text) :
  occurs p (c :: s) = false → occurs p s = false.
Proof. cbn [occurs]. by intros [_ ?]%orb_false_iff. Qed.

Lemma occurs_infix (p a s b : text) :
  occurs p s = true → occurs p (a ++ s ++ b) = true.
Proof.
  intros (x & y & ->)%occurs_spec. apply occurs_spec.
  exists (a ++ x), (y ++ b). by rewrite <- !app_assoc.
Qed.

Lemma join_lookup (sep : text) (parts : list text) (i : nat) (x : text) :
  parts !! i = Some x → ∃ a b, join sep parts = a ++ x ++ b.
Proof.
  revert i. induction parts as [|p parts IH]; intros i Hi; [done|].
  destruct i as [|i].
  - injection Hi as ->. destruct parts as [|q parts].
    + exists [], []. by rewrite app_nil_r.
    + exists [], (sep ++ join sep (q :: parts)). done.
  - destruct (IH i Hi) as (a & b & Hab).
    destruct parts as [|q parts]; [done|].
    exists (p ++ sep ++ a), b.
    change (join sep (p :: q :: parts)) with (p ++ sep ++ join sep (q :: parts)).
    rewrite Hab. by rewrite <- !app_assoc.
Qed.

(** *** The digit limit of [int] *)

Lemma int_of_digits_Some (ds : text) (n : Z) :
  int_of_digits ds = Some n
  ↔ (length ds <= int_max_str_digits)%nat ∧ n = digits_value ds.
Proof.
  unfold int_of_digits.
  destruct (Nat.leb_spec (length ds) int_max_str_digits) as [H|H].
  - split; [by intros [= <-]|by intros [_ ->]].
  - split; [done|]. intros [H' _]. lia.
Qed.

Lemma int_of_digits_None (ds : text) :
  int_of_digits ds = None ↔ (int_max_str_digits < length ds)%nat.
Proof.
  unfold int_of_digits.
  destruct (Nat.leb_spec (length ds) int_max_str_digits) as [H|H].
  - split; [done|lia].
  - done.
Qed.

Lemma uint_length (d : Decimal.uint) :
  length (lit (NilEmpty.string_of_uint d)) = Decimal.nb_digits d.
Proof. induction d; simpl; auto. Qed.

Lemma of_uint_acc_lower (d : Decimal.uint) (acc : positive) :
  Z.pos acc * 10 ^ Z.of_nat (Decimal.nb_digits d)
  <= Z.pos (Pos.of_uint_acc d acc).
Proof.
  revert acc. induction d as [|d IH|d IH|d IH|d IH|d IH|d IH|d IH|d IH|d IH|d IH];
    intros acc; cbn [Decimal.nb_digits Pos.of_uint_acc];
    [rewrite Z.pow_0_r; lia|..];
    rewrite Nat2Z.inj_succ, Z.pow_succ_r by lia;
    (etrans; [|apply IH]);
    assert (0 < 10 ^ Z.of_nat (Decimal.nb_digits d)) by (apply Z.pow_pos_nonneg; lia);
    nia.
Qed.

(** A numeral that is its own normal form and not zero has a leading
    digit other than 0, so it denotes at least the power of ten of its
    length less one. *)
Lemma of_uint_lower (d : Decimal.uint) :
  Decimal.unorm d = d → d ≠ Decimal.zero →
  10 ^ (Z.of_nat (Decimal.nb_digits d) - 1) <= Z.of_N (Pos.of_uint d).
Proof.
  intros Hnorm Hnz.
  destruct d as [|d|d|d|d|d|d|d|d|d|d];
    [by rewrite <- Hnorm in Hnz| |..].
  { exfalso. unfold Decimal.unorm in Hnorm. cbn [Decimal.nzhead] in Hnorm.
    destruct (Decimal.nzhead d) eqn:E; try discriminate Hnorm.
    - injection Hnorm as <-. by apply Hnz.
    - exact (DecimalFacts.nzhead_nonzero _ _ E). }
  all: cbn [Pos.of_uint Decimal.nb_digits];
    replace (Z.of_nat (S (Decimal.nb_digits d)) - 1)
      with (Z.of_nat (Decimal.nb_digits d)) by lia;
    (etrans; [|apply of_uint_acc_lower]); lia.
Qed.

Lemma to_uint_normal (p : positive) :
  Decimal.unorm (Pos.to_uint p) = Pos.to_uint p.
Proof.
  pose proof (DecimalPos.Unsigned.to_of (Pos.to_uint p)) as H.
  rewrite DecimalPos.Unsigned.of_to in H. by rewrite <- H.
Qed.

(** [str(z)] has at most 4300 digits for [0 <= z < 10 ** 4300]. *)
Lemma str_of_int_length (z : Z) :
  0 <= z < str_digits_bound →
  (length (str_of_int z) <= int_max_str_digits)%nat.
Proof.
  unfold str_digits_bound.
  assert (1 <= int_max_str_digits)%nat as Hpos
    by (apply Nat.leb_le; by vm_compute).
  revert Hpos. generalize int_max_str_digits as n. intros n Hpos Hz.
  destruct z as [|p|p]; [done| |lia].
  - rewrite str_of_int_pos, uint_length.
    pose proof (of_uint_lower (Pos.to_uint p) (to_uint_normal p)
                  (DecimalPos.Unsigned.to_uint_nonzero p)) as Hlow.
    rewrite DecimalPos.Unsigned.of_to in Hlow.
    destruct (Nat.le_gt_cases (Decimal.nb_digits (Pos.to_uint p)) n) as [|Hgt];
      [done|exfalso].
    assert (10 ^ Z.of_nat n
            <= 10 ^ (Z.of_nat (Decimal.nb_digits (Pos.to_uint p)) - 1)) as Hmono
      by (apply Z.pow_le_mono_r; lia).
    simpl in Hlow. lia.
Qed.

(** [int(str(z)) == z] within the limit. *)
Lemma int_of_str_ok (z : Z) :
  0 <= z < str_digits_bound → int_of_digits (str_of_int z) = Some z.
Proof.
  intros Hz. apply int_of_digits_Some.
  split; [by apply str_of_int_length|]. symmetry. apply int_of_str. lia.
Qed.

End TextFacts.

(** ** Facts about the page pattern *)

Section ParserFacts.


Lemma span_digits_spec (s ds r : text) :
  span_digits s = (ds, r) →
  s = ds ++ r ∧ forallb is_digit ds = true
  ∧ ∀ c r', r = c :: r' → is_digit c = false.
Proof.
  revert ds r; induction s as [|c s IH]; intros ds r; simpl.
  - intros [= <- <-]. done.
  - destruct (is_digit c) eqn:E.
    + destruct (span_digits s) as [ds' r'] eqn:E'. intros [= <- <-].
      destruct (IH _ _ eq_refl) as (-> & ? & ?). simpl. by rewrite E.
    + intros [= <- <-]. split_and!; [done..|]. by intros ? ? [= <- <-].
Qed.

Lemma span_digits_app (ds r : text) :
  forallb is_digit ds = true →
  (∀ c r', r = c :: r' → is_digit c = false) →
  span_digits (ds ++ r) = (ds, r).
Proof.
  intros Hds Hr. induction ds as [|d ds IH]; simpl.
  - destruct r as [|c r']; [done|]. simpl. by rewrite (Hr c r' eq_refl).
  - simpl in Hds. apply andb_true_iff in Hds as [-> Hds]. by rewrite IH.
Qed.

Lemma lazy_until_sep_spec (s a r : text) :
  lazy_until_sep s = (a, r) → s = a ++ r ∧ first_separator_at a r.
Proof.
  revert a r; induction s as [|c s IH]; intros a r.
  - simpl. intros [= <- <-]. split; [done|]. split; [by left|]. simpl; lia.
  - cbn [lazy_until_sep]. destruct (starts_with separator (c :: s)) eqn:E.
    + intros [= <- <-]. split; [done|]. split; [by right|]. simpl; lia.
    + destruct (lazy_until_sep s) as [a' r'] eqn:E'. intros [= <- <-].
      destruct (IH _ _ eq_refl) as (-> & Hr & Hk).
      split; [done|]. split; [done|].
      intros [|k] Hlt; simpl; [done|]. apply Hk. simpl in Hlt. lia.
Qed.

Lemma lazy_until_sep_app (a r : text) :
  first_separator_at a r → lazy_until_sep (a ++ r) = (a, r).
Proof.
  intros [Hr Hk]. induction a as [|c a IH].
  - simpl. destruct r as [|c r]; [done|].
    destruct Hr as [|Hr]; [done|]. cbn [lazy_until_sep]. by rewrite Hr.
  - cbn [app lazy_until_sep].
    pose proof (Hk 0%nat ltac:(simpl; lia)) as H0. simpl in H0. rewrite H0.
    rewrite IH; [done|]. intros k Hlt. apply (Hk (S k)). simpl. lia.
Qed.

Lemma first_separator_at_iff (a r : text) :
  first_separator_at a r ↔ lazy_until_sep (a ++ r) = (a, r).
Proof.
  split; [apply lazy_until_sep_app|].
  by intros [_ H]%lazy_until_sep_spec.
Qed.

Lemma starts_with_app_l (p s t : text) :
  (length p <= length s)%nat → starts_with p (s ++ t) = starts_with p s.
Proof.
  unfold starts_with. revert s; induction p as [|a p IH]; intros s Hlen; [done|].
  destruct s as [|b s]; [simpl in Hlen; lia|]. simpl.
  destruct (Ascii.eqb a b); [|done]. apply IH. simpl in Hlen. lia.
Qed.

(** A content that holds the separator, or ends with its first five or six
    characters, meets a separator before the one appended to it. *)
Lemma early_separator (a tail : text) :
  tail ∈ [ lit "---" ++ nl ++ nl; lit "---"; lit "---" ++ nl ] ∨
  (∃ b, tail = lit "---" ++ nl ++ nl ++ b) →
  ¬ first_separator_at (a ++ nl ++ nl ++ tail) separator.
Proof.
  intros Htail [_ Hk].
  assert (starts_with separator ((nl ++ nl ++ tail) ++ separator) = true) as Hs.
  { destruct Htail as [Hin|[b ->]].
    - repeat (apply elem_of_cons in Hin as [->|Hin]; [reflexivity|]).
      by apply not_elem_of_nil in Hin.
    - reflexivity. }
  specialize (Hk (length a)). rewrite <- app_assoc, drop_app_length in Hk.
  rewrite Hs in Hk. discriminate Hk.
  rewrite !length_app. simpl. lia.
Qed.

(** Whether a content ends at the separator appended to it does not depend
    on what follows that separator. *)
Lemma first_separator_at_extend (c rest : text) :
  first_separator_at c separator → first_separator_at c (separator ++ rest).
Proof.
  intros [_ Hk]. split; [right; apply starts_with_app|].
  intros k Hlt. rewrite (app_assoc c separator rest).
  rewrite drop_app_le by (rewrite length_app; lia).
  rewrite starts_with_app_l; [by apply Hk|].
  rewrite length_drop, length_app. simpl. lia.
Qed.

Lemma nl_not_digit (c : ascii) (r r' : text) :
  nl ++ r = c :: r' → is_digit c = false.
Proof. by intros [= <- _]. Qed.

(** *** The backtracking matcher on the page pattern *)

Lemma backtrack_literal {A} (p s : text) (g : gmap nat text)
    (k : text → gmap nat text → option A) :
  backtrack (literal p) s g k
  = match strip_prefix p s with Some r => k r g | None => None end.
Proof.
  revert s; induction p as [|a p IH]; intros s; [done|].
  cbn [literal backtrack strip_prefix]. destruct s as [|b s]; [done|].
  destruct (Ascii.eqb a b); [apply IH|done].
Qed.

Lemma span_digits_nil (s r : text) : span_digits s = ([], r) → r = s.
Proof.
  destruct s as [|c s]; simpl; [by intros [= <-]|].
  destruct (is_digit c); [|by intros [= <-]].
  by destruct (span_digits s).
Qed.

(** The greedy [\d+] before a continuation that rejects a digit: the
    longest run of digits, with no second try. *)
Lemma greedy_plus_digit {A} (k : text → gmap nat text → option A)
    (fuel : nat) (s : text) (g : gmap nat text) :
  (length s < fuel)%nat →
  (∀ c s' g', is_digit c = true → k (c :: s') g' = None) →
  greedy_plus (fun s0 g0 k0 => backtrack Digit s0 g0 k0) k fuel s g
  = match span_digits s with
    | ([], _) => None
    | (_ :: _, r) => k r g
    end.
Proof.
  intros Hfuel Hk. revert s Hfuel.
  induction fuel as [|fuel IH]; intros s Hfuel; [lia|].
  cbn [greedy_plus backtrack]. destruct s as [|x s]; [done|].
  cbn [span_digits]. destruct (is_digit x) eqn:Hx; [|done].
  assert ((length s <? length (x :: s))%nat = true) as ->
    by (apply Nat.ltb_lt; simpl; lia).
  rewrite IH by (simpl in Hfuel; lia).
  destruct (span_digits s) as [[|d ds] r] eqn:Hs.
  - by apply span_digits_nil in Hs as ->.
  - destruct (k r g) eqn:Hr; [done|].
    apply span_digits_spec in Hs as (-> & Hds & _).
    simpl in Hds. apply andb_true_iff in Hds as [Hd _].
    by apply Hk.
Qed.

(** The lazy [.*?] before the look-ahead: the first position at which the
    look-ahead succeeds. *)
Lemma lazy_star_any {A} (k : text → gmap nat text → option A)
    (f : text → gmap nat text → A) (fuel : nat) (s : text) (g : gmap nat text) :
  (length s <= fuel)%nat →
  (∀ t g1, k t g1 = if at_boundary t then Some (f t g1) else None) →
  lazy_star (fun s0 g0 k0 => backtrack AnyChar s0 g0 k0) k fuel s g
  = Some (f (lazy_until_sep s).2 g).
Proof.
  intros Hfuel Hk. revert fuel Hfuel.
  induction s as [|c s IH]; intros fuel Hfuel.
  - destruct fuel; cbn [lazy_star]; by rewrite Hk.
  - destruct fuel as [|fuel]; [simpl in Hfuel; lia|].
    cbn [lazy_star lazy_until_sep]. rewrite Hk. unfold at_boundary.
    destruct (starts_with separator (c :: s)); [done|].
    cbn [orb backtrack].
    assert ((length s <? length (c :: s))%nat = true) as ->
      by (apply Nat.ltb_lt; simpl; lia).
    rewrite IH by (simpl in Hfuel; lia).
    by destruct (lazy_until_sep s).
Qed.

Lemma backtrack_lookahead {A} (t : text) (g : gmap nat text)
    (k : text → gmap nat text → option A) :
  backtrack (Ahead (Alt (literal separator) EndZ)) t g k
  = if at_boundary t then k t g else None.
Proof.
  cbn [backtrack]. rewrite backtrack_literal. unfold at_boundary, starts_with.
  destruct (strip_prefix separator t); [done|]. by destruct t.
Qed.

Lemma take_prefix (a r : text) : take (length (a ++ r) - length r) (a ++ r) = a.
Proof.
  rewrite length_app.
  replace (length a + length r - length r)%nat with (length a) by lia.
  by rewrite take_app_length.
Qed.

Lemma backtrack_Seq {A} (r1 r2 : regex) (s : text) (g : gmap nat text)
    (k : text → gmap nat text → option A) :
  backtrack (Seq r1 r2) s g k
  = backtrack r1 s g (fun s1 g1 => backtrack r2 s1 g1 k).
Proof. reflexivity. Qed.

Lemma backtrack_Group {A} (i : nat) (r : regex) (s : text) (g : gmap nat text)
    (k : text → gmap nat text → option A) :
  backtrack (Group i r) s g k
  = backtrack r s g
      (fun s1 g1 => k s1 (<[i := take (length s - length s1) s]> g1)).
Proof. reflexivity. Qed.

Lemma backtrack_plus_digit {A} (k : text → gmap nat text → option A)
    (s : text) (g : gmap nat text) :
  (∀ c s' g', is_digit c = true → k (c :: s') g' = None) →
  backtrack (PlusGreedy Digit) s g k
  = match span_digits s with
    | ([], _) => None
    | (_ :: _, r) => k r g
    end.
Proof. intros Hk. apply greedy_plus_digit; [lia|done]. Qed.

Lemma backtrack_lazy_any {A} (k : text → gmap nat text → option A)
    (f : text → gmap nat text → A) (s : text) (g : gmap nat text) :
  (∀ t g1, k t g1 = if at_boundary t then Some (f t g1) else None) →
  backtrack (StarLazy AnyChar) s g k = Some (f (lazy_until_sep s).2 g).
Proof. intros Hk. by apply lazy_star_any. Qed.

(** The backtracking matcher on the page pattern computes the direct
    reading of the pattern. *)
Lemma match_here_direct (s : text) : match_here s = match_direct s.
Proof.
  unfold match_here, match_direct, page_pattern.
  rewrite backtrack_Seq, backtrack_literal.
  destruct (strip_prefix header_lit s) as [s1|]; [|done].
  rewrite backtrack_Seq, backtrack_Group, backtrack_plus_digit.
  - destruct (span_digits s1) as [[|d ds] s2] eqn:Hs1; [done|].
    apply span_digits_spec in Hs1 as (-> & _ & _).
    rewrite take_prefix, backtrack_Seq, backtrack_literal.
    destruct (strip_prefix (nl ++ nl) s2) as [s3|]; [|done].
    rewrite backtrack_Seq, backtrack_Group.
    rewrite (backtrack_lazy_any _
               (fun t g1 =>
                  (default [] (<[2%nat := take (length s3 - length t) s3]> g1 !! 1%nat),
                   default [] (<[2%nat := take (length s3 - length t) s3]> g1 !! 2%nat),
                   t))).
    + destruct (lazy_until_sep s3) as [content rest] eqn:Hs3.
      apply lazy_until_sep_spec in Hs3 as [-> _].
      cbn [snd]. rewrite lookup_insert_eq, lookup_insert_ne by done.
      rewrite lookup_insert_eq. cbn [default].
      by rewrite take_prefix.
    + intros t g1. by rewrite backtrack_lookahead.
  - intros c s' g' Hc. rewrite backtrack_Seq, backtrack_literal.
    cbn [nl app strip_prefix].
    destruct (Ascii.eqb "010" c) eqn:E; [|done].
    apply Ascii.eqb_eq in E. by subst c.
Qed.

Lemma match_here_Some (s ds c rest : text) :
  match_here s = Some (ds, c, rest) ↔
  ∃ tail, s = header_lit ++ ds ++ nl ++ nl ++ tail ∧ ds ≠ []
          ∧ forallb is_digit ds = true ∧ lazy_until_sep tail = (c, rest).
Proof.
  rewrite match_here_direct. unfold match_direct. split.
  - destruct (strip_prefix header_lit s) as [s1|] eqn:E1; [|done].
    apply strip_prefix_Some in E1 as ->.
    destruct (span_digits s1) as [ds' s2] eqn:E2.
    apply span_digits_spec in E2 as (-> & Hds & _).
    destruct ds' as [|d ds']; [done|].
    destruct (strip_prefix (nl ++ nl) s2) as [s3|] eqn:E3; [|done].
    apply strip_prefix_Some in E3 as ->.
    destruct (lazy_until_sep s3) as [c' rest'] eqn:E4.
    intros [= <- <- <-]. exists s3. by rewrite <- app_assoc.
  - intros (tail & -> & Hne & Hds & Hl).
    rewrite strip_prefix_app.
    rewrite (span_digits_app ds (nl ++ nl ++ tail) Hds (fun c r' => nl_not_digit c _ r')).
    destruct ds as [|d ds]; [done|].
    rewrite (app_assoc nl nl tail), strip_prefix_app, Hl. done.
Qed.

Lemma match_here_length (s ds c rest : text) :
  match_here s = Some (ds, c, rest) → (length rest < length s)%nat.
Proof.
  intros (tail & -> & _ & _ & Hl)%match_here_Some.
  apply lazy_until_sep_spec in Hl as [-> _].
  rewrite !length_app. simpl. lia.
Qed.

Lemma match_here_head (x : ascii) (s : text) :
  x ≠ "#"%char → match_here (x :: s) = None.
Proof.
  intros Hx. rewrite match_here_direct. unfold match_direct, header_lit.
  change (lit "## Page ") with ("#"%char :: lit "# Page ").
  cbn [strip_prefix].
  destruct (Ascii.eqb "#" x) eqn:E; [|done].
  apply Ascii.eqb_eq in E. congruence.
Qed.

Lemma findall_fuel_enough (n m : nat) (s : text) :
  (length s < n)%nat → (length s < m)%nat →
  findall_fuel n s = findall_fuel m s.
Proof.
  revert m s; induction n as [|n IH]; intros m s Hn Hm; [lia|].
  destruct m as [|m]; [lia|]. simpl.
  destruct (match_here s) as [[[ds c] rest]|] eqn:E.
  - f_equal. apply match_here_length in E. apply IH; lia.
  - destruct s as [|x s]; [done|]. simpl in *. apply IH; lia.
Qed.

(** The scan equation of [findall], free of fuel. *)
Lemma findall_eq (s : text) :
  findall s =
  match match_here s with
  | Some (ds, c, rest) => (ds, c) :: findall rest
  | None => match s with [] => [] | _ :: s' => findall s' end
  end.
Proof.
  unfold findall at 1. simpl.
  destruct (match_here s) as [[[ds c] rest]|] eqn:E.
  - f_equal. apply match_here_length in E.
    apply findall_fuel_enough; lia.
  - destruct s as [|x s]; [done|]. apply findall_fuel_enough; simpl; lia.
Qed.

Lemma findall_nil : findall [] = [].
Proof. done. Qed.

Lemma findall_skip (x : ascii) (s : text) :
  x ≠ "#"%char → findall (x :: s) = findall s.
Proof. intros Hx. by rewrite findall_eq, match_here_head. Qed.

Lemma findall_separator (s : text) : findall (separator ++ s) = findall s.
Proof. unfold separator, nl, lit; simpl. by rewrite !findall_skip. Qed.

(** A section [## Page <ds>\n\n<c>] followed by its first separator (or by
    the end of the input) is one match, and the scan resumes at [rest]. *)
Lemma findall_section (ds c rest : text) :
  ds ≠ [] → forallb is_digit ds = true → first_separator_at c rest →
  findall (header_lit ++ ds ++ nl ++ nl ++ c ++ rest) = (ds, c) :: findall rest.
Proof.
  intros Hne Hds Hc. rewrite findall_eq.
  assert (match_here (header_lit ++ ds ++ nl ++ nl ++ c ++ rest)
          = Some (ds, c, rest)) as ->; [|done].
  apply match_here_Some. exists (c ++ rest). split_and!; try done.
  by apply lazy_until_sep_app.
Qed.


Lemma findall_sound (s : text) : Forall (page_match_in s) (findall s).
Proof.
  remember (length s) as n eqn:Hn. revert s Hn.
  induction n as [n IH] using lt_wf_ind; intros s ->.
  rewrite findall_eq.
  destruct (match_here s) as [[[ds c] rest]|] eqn:E.
  - pose proof (match_here_length _ _ _ _ E) as Hlen.
    apply match_here_Some in E as (tail & -> & Hne & Hds & Hl).
    apply lazy_until_sep_spec in Hl as [-> Hc].
    constructor.
    + by exists [], rest.
    + eapply Forall_impl; [exact (IH _ Hlen rest eq_refl)|].
      intros m (pre & rest' & -> & ? & ? & ?).
      exists (header_lit ++ ds ++ nl ++ nl ++ c ++ pre), rest'.
      split_and!; try done. by rewrite <- !app_assoc.
  - destruct s as [|x s]; [constructor|].
    eapply Forall_impl; [exact (IH (length s) ltac:(simpl; lia) s eq_refl)|].
    intros m (pre & rest' & -> & ? & ? & ?).
    by exists (x :: pre), rest'.
Qed.

(** *** The loop over the matches *)

Lemma store_page_Some (pages pages' : gmap Z text) (m : text * text) :
  store_page pages m = Some pages'
  ↔ convertible m ∧ pages' = stored_page pages m.
Proof.
  unfold store_page, convertible, stored_page, int_of_digits.
  destruct (Nat.leb_spec (length m.1) int_max_str_digits) as [H|H].
  - split; [by intros [= <-]|by intros [_ ->]].
  - split; [done|]. intros [H' _]. lia.
Qed.

Lemma store_pages_Some (ms : list (text * text)) (acc pages : gmap Z text) :
  store_pages ms acc = Some pages
  ↔ Forall convertible ms ∧ pages = fold_left stored_page ms acc.
Proof.
  revert acc. induction ms as [|m ms IH]; intros acc; cbn [store_pages fold_left].
  - split; [by intros [= <-]|by intros [_ ->]].
  - destruct (store_page acc m) as [acc'|] eqn:E.
    + apply store_page_Some in E as [Hm ->]. rewrite IH.
      split; [intros [Hms ->]; by split; [constructor|]|].
      intros [Hall ->]. by apply Forall_cons in Hall as [_ Hms].
    + split; [done|]. intros [Hall _]. apply Forall_cons in Hall as [Hm _].
      assert (store_page acc m = Some (stored_page acc m)) as E'
        by (by apply store_page_Some).
      congruence.
Qed.

Lemma store_pages_None (ms : list (text * text)) (acc : gmap Z text) :
  store_pages ms acc = None ↔ Exists (fun m => ¬ convertible m) ms.
Proof.
  destruct (store_pages ms acc) as [pages|] eqn:E.
  - apply store_pages_Some in E as [Hall _]. split; [done|].
    intros Hex. exfalso. apply Exists_exists in Hex as (m & Hin & Hm).
    rewrite Forall_forall in Hall. by apply Hm, Hall.
  - split; [|done]. intros _.
    destruct (decide (Forall convertible ms)) as [Hall|Hnot].
    + assert (store_pages ms acc = Some (fold_left stored_page ms acc)) as E'
        by (by apply store_pages_Some).
      congruence.
    + apply not_Forall_Exists in Hnot; [done|]. intros m. apply _.
Qed.

(** The parser returns a dict exactly when every page number it matched
    converts, and the dict is then the one built from the matches. *)
Lemma parse_Some (s : text) (pages : gmap Z text) :
  parse_markdown_by_pages s = Some pages
  ↔ Forall convertible (findall s) ∧ pages = parsed s.
Proof. apply store_pages_Some. Qed.

Lemma parse_ok (s : text) :
  Forall convertible (findall s) → parse_markdown_by_pages s = Some (parsed s).
Proof. intros H. by apply parse_Some. Qed.

Lemma parse_None (s : text) :
  parse_markdown_by_pages s = None
  ↔ Exists (fun m => ¬ convertible m) (findall s).
Proof. apply store_pages_None. Qed.

End ParserFacts.


(** ** Strategy selection and window construction *)

Section StrategyFacts.

Import Module2.

Lemma range_elem (a b n : Z) : n ∈ range a b ↔ a <= n < b.
Proof. unfold range. rewrite elem_of_seqZ. lia. Qed.

Lemma range_length (a b : Z) : length (range a b) = Z.to_nat (b - a).
Proof. unfold range. apply length_seqZ. Qed.

Lemma range_cons (a b : Z) : a < b → range a b = a :: range (a + 1) b.
Proof.
  intros H. unfold range. rewrite seqZ_cons by lia.
  f_equal. f_equal; lia.
Qed.

Lemma range_nil (a b : Z) : b <= a → range a b = [].
Proof. intros H. unfold range. apply seqZ_nil. lia. Qed.

Lemma window_pages_elem (total_pages i n : Z) :
  n ∈ window_pages total_pages i ↔ start_page i <= n <= end_page total_pages i.
Proof. unfold window_pages. rewrite range_elem. lia. Qed.

(** C6: in the sliding-window strategy over a P-page document, the window
    that focuses on page i, 1 <= i <= P, spans start = max(1, i-1) to
    end = min(P, i+1): it contains the focus page, holds exactly the pages
    start..end, and none of them lies outside 1..P.  For P = 10 the focus
    pages 1, 5 and 10 give the windows [1,2], [4,6] and [9,10]. *)
Theorem window_bounds_clamped (P i : Z) :
  1 <= i <= P →
  start_page i = Z.max 1 (i - 1)
  ∧ end_page P i = Z.min P (i + 1)
  ∧ 1 <= start_page i <= i ∧ i <= end_page P i <= P
  ∧ window_pages P i = seqZ (start_page i) (end_page P i - start_page i + 1)
  ∧ (∀ n, n ∈ window_pages P i → 1 <= n <= P)
  ∧ (start_page 1, end_page 10 1, window_pages 10 1) = (1, 2, [1; 2])
  ∧ (start_page 5, end_page 10 5, window_pages 10 5) = (4, 6, [4; 5; 6])
  ∧ (start_page 10, end_page 10 10, window_pages 10 10) = (9, 10, [9; 10]).
Proof.
  intros Hi. unfold start_page, end_page.
  split_and!; try done; try lia.
  - unfold window_pages, range, start_page, end_page. f_equal. lia.
  - intros n Hn%window_pages_elem. unfold start_page, end_page in Hn. lia.
Qed.

Lemma window_bounds_clamped_witness :
  1 <= 5 <= 10 ∧ window_pages 10 5 = seqZ (start_page 5) (end_page 10 5 - start_page 5 + 1).
Proof.
  split; [lia|].
  apply (window_bounds_clamped 10 5). lia.
Defined.

(** The analysis step of [extract_rules_from_markdown] carries out the
    effective strategy. *)
Lemma analysis_by_strategy {service} (create : request → service → outcome * service)
    (content : text) (pages : gmap Z text) (o : option bool) :
  parse_markdown_by_pages content = Some pages →
  let P := Z.of_nat (size pages) in
  (if wants_sliding_window P o
   then extract_rules_from_markdown_sliding_window create content
   else extract_rules_from_markdown_single_pass create content)
  = match effective_strategy P o with
    | SinglePass => extract_rules_from_markdown_single_pass create content
    | SlidingWindow => windows_then_consolidate create pages P
    end.
Proof.
  intros Hparse P.
  unfold effective_strategy, extract_rules_from_markdown_sliding_window,
    parse_pages.
  rewrite Hparse. unfold bind, lift. cbv beta iota. fold P.
  destruct (wants_sliding_window P o); [|done].
  by destruct (P <=? 3).
Qed.

Lemma run_by_strategy {service} (create : request → service → outcome * service)
    (path out : string) (o : option bool) (w : world service)
    (content : text) (pages : gmap Z text) :
  files w !! path = Some content →
  parse_markdown_by_pages content = Some pages →
  let P := Z.of_nat (size pages) in
  extract_rules_from_markdown create path out o w
  = bind
      match effective_strategy P o with
      | SinglePass => extract_rules_from_markdown_single_pass create content
      | SlidingWindow => windows_then_consolidate create pages P
      end
      (fun result =>
         bind (write_file out (report_file (lit path) P result))
              (fun _ => ret out)) w.
Proof.
  intros Hfile Hparse. cbv zeta.
  pose proof (analysis_by_strategy create content pages o Hparse) as H.
  cbv zeta in H. rewrite <- H.
  unfold extract_rules_from_markdown, bind at 1, load_markdown_file.
  rewrite Hfile. unfold bind at 1, lift, parse_pages. by rewrite Hparse.
Qed.

(** A page number beyond the digit limit of [int] ends the run before any
    strategy is chosen. *)
Lemma run_value_error {service} (create : request → service → outcome * service)
    (path out : string) (o : option bool) (w : world service) (content : text) :
  files w !! path = Some content →
  parse_markdown_by_pages content = None →
  extract_rules_from_markdown create path out o w = (Raise ValueError, w).
Proof.
  intros Hfile Hparse.
  unfold extract_rules_from_markdown, bind at 1, load_markdown_file.
  rewrite Hfile. unfold bind at 1, lift, parse_pages. by rewrite Hparse.
Qed.

(** C2: the effective extraction strategy is a function of the parsed page
    count P and the optional caller override alone.  Without an override,
    single-pass is used exactly when P <= 10 (P = 10 single-pass, P = 11
    sliding-window); whenever P <= 3 single-pass is used whatever the
    override; a sliding-window override gives sliding-window exactly when
    P > 3; and the run of [extract_rules_from_markdown] on a readable file
    whose text parses performs the analysis of that strategy, while a
    text the parser rejects ends the run before any strategy is
    chosen. *)
Theorem strategy_selection :
  (∀ P, effective_strategy P None = SinglePass ↔ P <= 10)
  ∧ effective_strategy 10 None = SinglePass
  ∧ effective_strategy 11 None = SlidingWindow
  ∧ (∀ P o, P <= 3 → effective_strategy P o = SinglePass)
  ∧ (∀ P, effective_strategy P (Some true) = SlidingWindow ↔ 3 < P)
  ∧ (∀ P, effective_strategy P (Some false) = SinglePass)
  ∧ (∀ P o, 10 < P → o ≠ Some false → effective_strategy P o = SlidingWindow)
  ∧ (∀ service (create : request → service → outcome * service)
       path out o w content pages,
       files w !! path = Some content →
       parse_markdown_by_pages content = Some pages →
       let P := Z.of_nat (size pages) in
       extract_rules_from_markdown create path out o w
       = bind
           match effective_strategy P o with
           | SinglePass => extract_rules_from_markdown_single_pass create content
           | SlidingWindow => windows_then_consolidate create pages P
           end
           (fun result =>
              bind (write_file out (report_file (lit path) P result))
                   (fun _ => ret out)) w)
  ∧ (∀ service (create : request → service → outcome * service)
       path out o w content,
       files w !! path = Some content →
       parse_markdown_by_pages content = None →
       extract_rules_from_markdown create path out o w
       = (Raise ValueError, w)).
Proof.
  split_and!;
    [| | | | | | |
     intros service create path out o w content pages Hfile Hparse;
       exact (run_by_strategy create path out o w content pages Hfile Hparse)
     |intros service create path out o w content Hfile Hparse;
       exact (run_value_error create path out o w content Hfile Hparse)];
    unfold effective_strategy, wants_sliding_window.
  - intros P. destruct (Z.gtb_spec P 10), (Z.leb_spec P 3);
      split; try done; lia.
  - done.
  - done.
  - intros P o HP. destruct (Z.leb_spec P 3); [|lia]. by repeat case_match.
  - intros P. destruct (Z.leb_spec P 3); split; try done; lia.
  - done.
  - intros P o HP Ho. destruct (Z.leb_spec P 3); [lia|].
    destruct o as [[]|]; try done. destruct (Z.gtb_spec P 10); [done|lia].
Qed.

Lemma strategy_selection_witness :
  effective_strategy 3 (Some true) = SinglePass
  ∧ effective_strategy 10 None = SinglePass
  ∧ effective_strategy 11 None = SlidingWindow.
Proof.
  destruct strategy_selection as (_ & H10 & H11 & Hsmall & _).
  split_and!; [apply Hsmall; lia|exact H10|exact H11].
Defined.

End StrategyFacts.

(** ** The page parser *)

Section ParserTheorems.

Lemma filter_none {A} (P : A → Prop) `{∀ x, Decision (P x)} (l : list A) :
  Forall (fun x => ¬ P x) l → filter P l = [].
Proof.
  induction 1 as [|x l Hx _ IH]; [done|].
  by rewrite filter_cons_False.
Qed.

Lemma fold_store_lookup (l : list (text * text)) (acc : gmap Z text) (n : Z) :
  fold_left stored_page l acc !! n =
  match last (filter (fun m => digits_value m.1 = n) l) with
  | Some m => Some (strip m.2)
  | None => acc !! n
  end.
Proof.
  induction l as [|x l IH] using rev_ind; [done|].
  rewrite fold_left_app, filter_app. simpl. unfold stored_page at 1.
  destruct (decide (digits_value x.1 = n)) as [<-|Hne].
  - rewrite filter_cons_True, filter_nil by done.
    by rewrite last_snoc, lookup_insert_eq.
  - rewrite filter_cons_False, filter_nil, app_nil_r by done.
    rewrite lookup_insert_ne by done. apply IH.
Qed.

Lemma parsed_lookup (s : text) (n : Z) :
  parsed s !! n
  = (fun m => strip m.2) <$> last (filter (fun m => digits_value m.1 = n) (findall s)).
Proof.
  unfold parsed. rewrite fold_store_lookup.
  by destruct (last _).
Qed.

(** Among matches that convert, the matches [int] maps to [n] are those
    whose digits have the value [n]. *)
Lemma filter_converted (l : list (text * text)) (n : Z) :
  Forall convertible l →
  filter (fun m => int_of_digits m.1 = Some n) l
  = filter (fun m => digits_value m.1 = n) l.
Proof.
  induction 1 as [|m l Hm _ IH]; [done|].
  assert (int_of_digits m.1 = Some n ↔ digits_value m.1 = n) as Hiff.
  { rewrite int_of_digits_Some. unfold convertible in Hm.
    split; [by intros [_ ->]|by intros <-]. }
  rewrite !filter_cons, IH.
  destruct (decide (int_of_digits m.1 = Some n)) as [H1|H1],
           (decide (digits_value m.1 = n)) as [H2|H2]; try done; tauto.
Qed.

Lemma parse_lookup (s : text) (pages : gmap Z text) (n : Z) :
  parse_markdown_by_pages s = Some pages →
  pages !! n
  = (fun m => strip m.2)
      <$> last (filter (fun m => int_of_digits m.1 = Some n) (findall s)).
Proof.
  intros [Hall ->]%parse_Some.
  by rewrite parsed_lookup, filter_converted.
Qed.

Lemma parse_two_sections (d1 c1 d2 c2 : text) :
  d1 ≠ [] → forallb is_digit d1 = true →
  d2 ≠ [] → forallb is_digit d2 = true →
  (length d1 <= int_max_str_digits)%nat →
  (length d2 <= int_max_str_digits)%nat →
  first_separator_at c1 separator → first_separator_at c2 separator →
  parse_markdown_by_pages
    (header_lit ++ d1 ++ nl ++ nl ++ c1 ++ separator
     ++ header_lit ++ d2 ++ nl ++ nl ++ c2 ++ separator)
  = Some (<[digits_value d2 := strip c2]> {[ digits_value d1 := strip c1 ]}).
Proof.
  intros Hn1 Hd1 Hn2 Hd2 Hl1 Hl2 Hc1 Hc2.
  assert (findall (header_lit ++ d1 ++ nl ++ nl ++ c1 ++ separator
                   ++ header_lit ++ d2 ++ nl ++ nl ++ c2 ++ separator)
          = [(d1, c1); (d2, c2)]) as Hf.
  { rewrite (findall_section d1 c1 _ Hn1 Hd1 (first_separator_at_extend _ _ Hc1)).
    rewrite findall_separator.
    pose proof (findall_section d2 c2 (separator ++ []) Hn2 Hd2
                  (first_separator_at_extend _ _ Hc2)) as H2.
    rewrite app_nil_r in H2. rewrite H2.
    by rewrite <- (app_nil_r separator), findall_separator, findall_nil. }
  rewrite parse_ok
    by (rewrite Hf; constructor; [exact Hl1|]; constructor; [exact Hl2|];
        constructor).
  unfold parsed. rewrite Hf. simpl. unfold stored_page. simpl.
  by rewrite insert_empty.
Qed.

(** C10, as stated, fails for a page number of more than 4300 digits: on
    two sections that both carry the number 1, the second written with
    4300 leading zeros, [int] raises [ValueError] and no map is
    returned. *)
Lemma long_page_number_counterexample :
  findall page_1_twice_long
  = [(lit "1", lit "old"); (repeat "0"%char 4300 ++ lit "1", lit "new")]
  ∧ digits_value (lit "1") = 1
  ∧ digits_value (repeat "0"%char 4300 ++ lit "1") = 1
  ∧ parse_markdown_by_pages page_1_twice_long = None.
Proof. split_and!; by vm_compute. Qed.

(** C10, amended: the parser returns a map exactly when no page number it
    matched has more than 4300 digits.  For every input text on which it
    returns, the entry of the returned map for a page number is the
    stripped content of the last match that carries this number; when
    two page sections carry the same number, the later one replaces the
    earlier one, and nothing is rejected.  In particular a text of two
    sections whose numbers have the same value (as [7] and [007]) parses
    to the single entry of the second section. *)
Theorem duplicate_pages_last_wins (s : text) :
  (parse_markdown_by_pages s = None
   ↔ Exists (fun m => (int_max_str_digits < length m.1)%nat) (findall s))
  ∧ (∀ pages, parse_markdown_by_pages s = Some pages →
       (∀ n, pages !! n
             = (fun m => strip m.2)
                 <$> last (filter (fun m => int_of_digits m.1 = Some n)
                                  (findall s)))
       ∧ (∀ before m1 between m2 after n,
            findall s = before ++ m1 :: between ++ m2 :: after →
            int_of_digits m1.1 = Some n → int_of_digits m2.1 = Some n →
            Forall (fun m => int_of_digits m.1 ≠ Some n) after →
            pages !! n = Some (strip m2.2)))
  ∧ (∀ d1 c1 d2 c2,
       s = header_lit ++ d1 ++ nl ++ nl ++ c1 ++ separator
           ++ header_lit ++ d2 ++ nl ++ nl ++ c2 ++ separator →
       d1 ≠ [] → forallb is_digit d1 = true →
       d2 ≠ [] → forallb is_digit d2 = true →
       (length d1 <= int_max_str_digits)%nat →
       (length d2 <= int_max_str_digits)%nat →
       digits_value d1 = digits_value d2 →
       first_separator_at c1 separator → first_separator_at c2 separator →
       parse_markdown_by_pages s = Some {[ digits_value d2 := strip c2 ]}).
Proof.
  split_and!.
  - rewrite parse_None. split; intros Hex; eapply Exists_impl; try exact Hex;
      intros m; unfold convertible; simpl; lia.
  - intros pages Hparse. split; [intros n; by apply parse_lookup|].
    intros before m1 between m2 after n Hs _ Hm2 Hafter.
    rewrite (parse_lookup s pages n Hparse), Hs.
    assert (before ++ m1 :: between ++ m2 :: after
            = (before ++ m1 :: between) ++ m2 :: after) as ->
      by (by rewrite <- app_assoc).
    rewrite filter_app, filter_cons_True by done.
    rewrite (filter_none _ after) by done.
    by rewrite last_snoc.
  - intros d1 c1 d2 c2 -> Hn1 Hd1 Hn2 Hd2 Hl1 Hl2 Hsame Hc1 Hc2.
    rewrite parse_two_sections by done.
    by rewrite Hsame, insert_singleton_eq.
Qed.

Lemma duplicate_pages_last_wins_witness :
  parse_markdown_by_pages twice_page_7 = Some {[ 7 := lit "new" ]}.
Proof.
  apply (proj2 (proj2 (duplicate_pages_last_wins twice_page_7))
           (lit "7") (lit "old") (lit "7") (lit "new"));
    try reflexivity; try done; try (apply Nat.leb_le; by vm_compute);
    apply first_separator_at_iff; reflexivity.
Defined.

(** C3, as stated, fails: on two consecutive headers without a separator
    page 2 is absent from the map and the content of page 1 is not cut at
    the second header. *)
Lemma two_headers_no_separator_counterexample :
  ∃ pages, parse_markdown_by_pages two_headers_no_separator = Some pages
    ∧ pages !! 2 = None
    ∧ pages !! 1
      = Some (lit "foo" ++ nl ++ nl ++ lit "## Page 2" ++ nl ++ nl ++ lit "bar")
    ∧ pages !! 1 ≠ Some (lit "foo").
Proof.
  eexists. split; [by vm_compute|]. split; [by vm_compute|].
  split; [by vm_compute|]. vm_compute. discriminate.
Qed.

Lemma parse_single_section (ds c : text) :
  ds ≠ [] → forallb is_digit ds = true →
  (length ds <= int_max_str_digits)%nat → first_separator_at c [] →
  parse_markdown_by_pages (header_lit ++ ds ++ nl ++ nl ++ c)
  = Some {[ digits_value ds := strip c ]}.
Proof.
  intros Hne Hds Hlen Hc.
  pose proof (findall_section ds c [] Hne Hds Hc) as Hf.
  rewrite app_nil_r, findall_nil in Hf.
  rewrite parse_ok by (rewrite Hf; constructor; [exact Hlen|constructor]).
  unfold parsed. rewrite Hf. simpl. unfold stored_page. simpl.
  by rewrite insert_empty.
Qed.

(** What one attempt of the pattern at the start of a text comes to. *)
Lemma match_here_iff (s ds c rest : text) :
  match_here s = Some (ds, c, rest)
  ↔ s = header_lit ++ ds ++ nl ++ nl ++ c ++ rest
    ∧ ds ≠ [] ∧ forallb is_digit ds = true ∧ first_separator_at c rest.
Proof.
  rewrite match_here_Some. split.
  - intros (tail & -> & Hne & Hds & Hl).
    by apply lazy_until_sep_spec in Hl as [-> Hc].
  - intros (-> & Hne & Hds & Hc). exists (c ++ rest).
    split_and!; try done. by apply lazy_until_sep_app.
Qed.

Lemma match_here_not_header (s : text) :
  starts_with header_lit s = false → match_here s = None.
Proof.
  intros H. rewrite match_here_direct. unfold match_direct.
  unfold starts_with in H. by destruct (strip_prefix header_lit s).
Qed.

(** Text in which no header starts is passed over by the scan. *)
Lemma findall_skip_text (pre s : text) :
  (∀ k, (k < length pre)%nat →
        starts_with header_lit (drop k (pre ++ s)) = false) →
  findall (pre ++ s) = findall s.
Proof.
  induction pre as [|x pre IH]; intros Hfree; [done|].
  rewrite findall_eq.
  rewrite match_here_not_header by (apply (Hfree 0%nat); simpl; lia).
  cbn [app]. apply IH. intros k Hk. apply (Hfree (S k)). simpl. lia.
Qed.

(** C3, amended: the parser scans the text from left to right.  At a
    position where [## Page <digits>\n\n] stands it reports a page whose
    number is the whole run of digits and whose content ends at the first
    separator [\n\n---\n\n] after the header, or at the end of the input
    when no separator follows; a header met before that point does not
    end the page, and the scan resumes where the content ended.  At any
    other position the scan moves on by one character, so text before a
    header and between sections is passed over and later pages are
    found.  Every page reported arose so.  In particular, for two
    consecutive headers with no separator after them, the single page
    of the returned map is the first one, and its content runs over the
    second header to the end of the input. *)
Theorem pages_end_at_separator :
  (∀ s, Forall (page_match_in s) (findall s))
  ∧ (∀ s ds c rest,
       match_here s = Some (ds, c, rest)
       ↔ s = header_lit ++ ds ++ nl ++ nl ++ c ++ rest
         ∧ ds ≠ [] ∧ forallb is_digit ds = true ∧ first_separator_at c rest)
  ∧ (∀ s, findall s
          = match match_here s with
            | Some (ds, c, rest) => (ds, c) :: findall rest
            | None => match s with [] => [] | _ :: s' => findall s' end
            end)
  ∧ (∀ ds c rest,
       ds ≠ [] → forallb is_digit ds = true → first_separator_at c rest →
       findall (header_lit ++ ds ++ nl ++ nl ++ c ++ rest)
       = (ds, c) :: findall rest)
  ∧ (∀ pre s,
       (∀ k, (k < length pre)%nat →
             starts_with header_lit (drop k (pre ++ s)) = false) →
       findall (pre ++ s) = findall s)
  ∧ (∀ n1 n2 a b,
       n1 ≠ [] → forallb is_digit n1 = true →
       (length n1 <= int_max_str_digits)%nat →
       first_separator_at (a ++ header_lit ++ n2 ++ nl ++ nl ++ b) [] →
       parse_markdown_by_pages
         (header_lit ++ n1 ++ nl ++ nl ++ a ++ header_lit ++ n2 ++ nl ++ nl ++ b)
       = Some {[ digits_value n1
                 := strip (a ++ header_lit ++ n2 ++ nl ++ nl ++ b) ]}).
Proof.
  split_and!.
  - apply findall_sound.
  - apply match_here_iff.
  - apply findall_eq.
  - apply findall_section.
  - apply findall_skip_text.
  - intros n1 n2 a b Hne Hds Hlen Hfree.
    by rewrite <- (parse_single_section n1 _ Hne Hds Hlen Hfree).
Qed.

Lemma pages_end_at_separator_witness :
  parse_markdown_by_pages two_headers_no_separator
  = Some {[ 1 := lit "foo" ++ nl ++ nl ++ lit "## Page 2" ++ nl ++ nl
                  ++ lit "bar" ]}.
Proof.
  apply (proj2 (proj2 (proj2 (proj2 (proj2 pages_end_at_separator))))
           (lit "1") (lit "2") (lit "foo" ++ nl ++ nl) (lit "bar"));
    [done|reflexivity|apply Nat.leb_le; by vm_compute
    |apply first_separator_at_iff; reflexivity].
Defined.

(** Text before the first header and between the sections is passed
    over, and the page after the separator is found. *)
Example findall_pages_amid_text :
  findall pages_amid_text = [(lit "1", lit "a"); (lit "2", lit "b")]
  ∧ parse_markdown_by_pages pages_amid_text
    = Some {[ 1 := lit "a"; 2 := lit "b" ]}.
Proof. split; by vm_compute. Qed.

(** The pattern at work on small inputs. *)
Example findall_empty_content :
  findall (lit "## Page 3" ++ nl ++ nl ++ separator) = [(lit "3", [])].
Proof. reflexivity. Qed.

Example findall_no_digits :
  findall (lit "## Page x" ++ nl ++ nl ++ lit "text" ++ separator) = [].
Proof. reflexivity. Qed.

Example findall_single_newline :
  findall (lit "## Page 3" ++ nl ++ lit "text" ++ separator) = [].
Proof. reflexivity. Qed.

Example findall_leading_zeros :
  parse_markdown_by_pages (lit "## Page 007" ++ nl ++ nl ++ lit " text ")
  = Some {[ 7 := lit "text" ]}.
Proof. reflexivity. Qed.

End ParserTheorems.

(** ** Round trip: assembly of Module 1, then the parser of Module 2 *)

Section RoundTrip.

Lemma page_map_snoc (cs : list text) (c : text) :
  page_map (cs ++ [c]) = <[Z.of_nat (length cs) + 1 := c]> (page_map cs).
Proof.
  unfold page_map, dict_of_pairs. rewrite imap_app, fold_left_app. simpl.
  by rewrite Nat.add_0_r.
Qed.

Lemma page_map_lookup (cs : list text) (k : Z) :
  page_map cs !! k
  = if decide (1 <= k <= Z.of_nat (length cs)) then cs !! Z.to_nat (k - 1) else None.
Proof.
  induction cs as [|c cs IH] using rev_ind.
  - change (page_map []) with (∅ : gmap Z text).
    rewrite lookup_empty. by case_decide.
  - rewrite page_map_snoc, length_app. simpl.
    destruct (decide (k = Z.of_nat (length cs) + 1)) as [->|Hne].
    + rewrite lookup_insert_eq. rewrite decide_True by lia.
      replace (Z.to_nat (Z.of_nat (length cs) + 1 - 1)) with (length cs) by lia.
      by rewrite list_lookup_middle.
    + rewrite lookup_insert_ne by done. rewrite IH.
      repeat case_decide; try lia; try done.
      rewrite lookup_app_l by lia. done.
Qed.

Lemma page_map_lookup_index (cs : list text) (j : nat) :
  page_map cs !! (Z.of_nat j + 1) = cs !! j.
Proof.
  rewrite page_map_lookup. case_decide as H.
  - f_equal. lia.
  - symmetry. apply lookup_ge_None. lia.
Qed.

Lemma page_map_size (cs : list text) : size (page_map cs) = length cs.
Proof.
  induction cs as [|c cs IH] using rev_ind; [done|].
  rewrite page_map_snoc, length_app, map_size_insert_None; simpl; [lia|].
  rewrite page_map_lookup. by rewrite decide_False by lia.
Qed.

Lemma concat3 {A} (a b c : list A) : concat [a; b; c] = a ++ b ++ c.
Proof. simpl. by rewrite app_nil_r. Qed.

Lemma md_page_text (pages : gmap Z text) (i : Z) (c : text) :
  pages !! i = Some c →
  concat (Module1.md_page pages i)
  = (header_lit ++ str_of_int i ++ nl ++ nl) ++ c ++ separator.
Proof.
  intros H. unfold Module1.md_page. rewrite H, concat3. reflexivity.
Qed.

Lemma sections_of_pages (pages : gmap Z text) (cs : list text) (k : Z) :
  (∀ j c, cs !! j = Some c → pages !! (k + Z.of_nat j) = Some c) →
  Module1.document
    (flat_map (Module1.md_page pages) (range k (k + Z.of_nat (length cs))))
  = sections_from k cs.
Proof.
  unfold Module1.document.
  revert k; induction cs as [|c cs IH]; intros k Hpages.
  - simpl. by rewrite range_nil by lia.
  - rewrite range_cons by (simpl; lia). cbn [flat_map].
    pose proof (Hpages 0%nat c eq_refl) as H0.
    rewrite Z.add_0_r in H0.
    rewrite concat_app, (md_page_text pages k c H0).
    replace (k + Z.of_nat (length (c :: cs)))
      with (k + 1 + Z.of_nat (length cs)) by (simpl; lia).
    rewrite IH.
    + cbn [sections_from]. by rewrite <- !app_assoc.
    + intros j c' Hj.
      replace (k + 1 + Z.of_nat j) with (k + Z.of_nat (S j)) by lia.
      by apply Hpages.
Qed.

Lemma serialize_pages_sections (cs : list text) :
  serialize_pages cs = sections_from 1 cs.
Proof.
  unfold serialize_pages.
  replace (Z.of_nat (length cs) + 1) with (1 + Z.of_nat (length cs)) by lia.
  apply sections_of_pages. intros j c Hj.
  replace (1 + Z.of_nat j) with (Z.of_nat j + 1) by lia.
  by rewrite page_map_lookup_index.
Qed.

Lemma findall_sections (k : Z) (cs : list text) :
  0 <= k → Forall (fun c => first_separator_at c separator) cs →
  findall (sections_from k cs) = section_matches k cs.
Proof.
  intros Hk Hcs. revert k Hk; induction Hcs as [|c cs Hc _ IH]; intros k Hk; [done|].
  cbn [sections_from section_matches]. rewrite <- !app_assoc.
  rewrite findall_section.
  - rewrite findall_separator, IH by lia. done.
  - apply str_of_int_nonempty.
  - by apply str_of_int_digits.
  - by apply first_separator_at_extend.
Qed.

Lemma store_sections_lookup (k : Z) (cs : list text) (acc : gmap Z text) (n : Z) :
  0 <= k →
  fold_left stored_page (section_matches k cs) acc !! n
  = if decide (k <= n < k + Z.of_nat (length cs))
    then strip <$> cs !! Z.to_nat (n - k) else acc !! n.
Proof.
  revert k acc; induction cs as [|c cs IH]; intros k acc Hk.
  - simpl. by rewrite decide_False by lia.
  - cbn [section_matches fold_left]. rewrite IH by lia.
    unfold stored_page; cbn [fst snd]. rewrite int_of_str by done.
    destruct (decide (n = k)) as [->|Hne].
    + rewrite decide_False by lia. rewrite lookup_insert_eq.
      rewrite decide_True by (simpl; lia).
      by rewrite Z.sub_diag.
    + rewrite lookup_insert_ne by done.
      repeat case_decide; simpl in *; try lia; try done.
      replace (Z.to_nat (n - k)) with (S (Z.to_nat (n - (k + 1)))) by lia.
      done.
Qed.

Lemma parsed_serialized (cs : list text) :
  Forall (fun c => first_separator_at c separator) cs →
  parsed (serialize_pages cs) = strip <$> page_map cs.
Proof.
  intros Hcs. apply map_eq; intros n.
  unfold parsed.
  rewrite serialize_pages_sections, findall_sections by done.
  rewrite store_sections_lookup by done.
  rewrite lookup_fmap, page_map_lookup, lookup_empty.
  repeat case_decide; try lia; done.
Qed.

(** The page numbers of the sections [k, k+1, ...] convert while they stay
    below the limit. *)
Lemma section_matches_convertible (k : Z) (cs : list text) :
  0 <= k → k + Z.of_nat (length cs) <= str_digits_bound →
  Forall convertible (section_matches k cs).
Proof.
  revert k; induction cs as [|c cs IH]; intros k Hk Hb; [constructor|].
  cbn [section_matches]. constructor.
  - apply str_of_int_length. simpl in Hb. lia.
  - apply IH; [lia|]. simpl in Hb. lia.
Qed.

Lemma parse_serialized (cs : list text) :
  Forall (fun c => first_separator_at c separator) cs →
  Z.of_nat (length cs) < str_digits_bound →
  parse_markdown_by_pages (serialize_pages cs) = Some (strip <$> page_map cs).
Proof.
  intros Hcs Hb. rewrite parse_ok, parsed_serialized; [done|done|].
  rewrite serialize_pages_sections, findall_sections by done.
  apply section_matches_convertible; lia.
Qed.

(** C4, as stated, fails: a content that itself contains the separator is
    cut at it, so the parsed entry differs from the stripped content. *)
Lemma roundtrip_counterexample :
  ∃ pages,
    parse_markdown_by_pages (serialize_pages [page_with_rule]) = Some pages
    ∧ pages !! 1 = Some (lit "a")
    ∧ pages !! 1 ≠ Some (strip page_with_rule).
Proof.
  eexists. split; [by vm_compute|]. split; [by vm_compute|].
  vm_compute. discriminate.
Qed.

(** C4, amended: for every page document of P pages in which no page
    content, once followed by the separator, has a separator starting
    inside the content, serialising it with the header/separator grammar
    of the assembly loop ([## Page <N>], two newlines, the content, the
    separator, for pages 1..P in order) and applying
    [parse_markdown_by_pages] yields a map with exactly P entries, whose
    entry for page number j+1 is the content of the j-th page stripped of
    leading and trailing whitespace.  P is to be below 10 ** 4300, as
    the length of any list is: [int] converts page numbers of at most
    4300 digits. *)
Theorem parse_serialize_roundtrip (contents : list text) :
  Forall (fun c => first_separator_at c separator) contents →
  Z.of_nat (length contents) < str_digits_bound →
  serialize_pages contents = sections_from 1 contents
  ∧ ∃ pages,
      parse_markdown_by_pages (serialize_pages contents) = Some pages
      ∧ pages = strip <$> page_map contents
      ∧ size pages = length contents
      ∧ (∀ j c, contents !! j = Some c →
                pages !! (Z.of_nat j + 1) = Some (strip c))
      ∧ (∀ n, is_Some (pages !! n) ↔ 1 <= n <= Z.of_nat (length contents)).
Proof.
  intros Hcs Hb. split; [apply serialize_pages_sections|].
  exists (strip <$> page_map contents).
  split; [by apply parse_serialized|].
  split_and!.
  - done.
  - by rewrite map_size_fmap, page_map_size.
  - intros j c Hj. by rewrite lookup_fmap, page_map_lookup_index, Hj.
  - intros n. rewrite lookup_fmap, page_map_lookup, fmap_is_Some.
    case_decide as Hn.
    + split; [done|]. intros _. apply lookup_lt_is_Some. lia.
    + split; [by intros [? ?]|done].
Qed.

Lemma parse_serialize_roundtrip_witness :
  Forall (fun c => first_separator_at c separator) [lit " one "; lit "two" ++ nl]
  ∧ ∃ pages,
      parse_markdown_by_pages (serialize_pages [lit " one "; lit "two" ++ nl])
      = Some pages
      ∧ pages = strip <$> page_map [lit " one "; lit "two" ++ nl].
Proof.
  assert (Forall (fun c => first_separator_at c separator)
                 [lit " one "; lit "two" ++ nl]) as H.
  { repeat constructor; apply first_separator_at_iff; reflexivity. }
  split; [exact H|].
  destruct (proj2 (parse_serialize_roundtrip _ H ltac:(by vm_compute)))
    as (pages & Hparse & Hpages & _).
  by exists pages.
Defined.

End RoundTrip.

(** ** The assembly loop of Module 1 *)

Section AssemblyFacts.

Import Module1.

Lemma page_sections_cons (k : Z) (c : text) (cs : list text) :
  page_sections k (c :: cs) = section_pieces k c ++ page_sections (k + 1) cs.
Proof.
  unfold page_sections. rewrite imap_cons. cbn [concat].
  rewrite Z.add_0_r. f_equal. f_equal.
  apply imap_ext. intros j c' _. simpl. f_equal. lia.
Qed.

Lemma md_pages_general (pages : gmap Z text) (n : nat) (k : Z) :
  flat_map (md_page pages) (seqZ k (Z.of_nat n))
  = page_sections k
      ((fun i => default (lit "[Missing]") (pages !! i)) <$> seqZ k (Z.of_nat n)).
Proof.
  revert k. induction n as [|n IH]; intros k; [done|].
  rewrite seqZ_cons by lia.
  replace (Z.pred (Z.of_nat (S n))) with (Z.of_nat n) by lia.
  rewrite fmap_cons, page_sections_cons. cbn [flat_map].
  replace (Z.succ k) with (k + 1) by lia. by rewrite IH.
Qed.

Lemma range_from_one (total : Z) :
  range 1 (total + 1) = seqZ 1 (Z.of_nat (Z.to_nat total)).
Proof.
  unfold range. destruct (Z.le_gt_cases 0 total).
  - f_equal. lia.
  - rewrite !seqZ_nil by lia. done.
Qed.

Lemma md_pieces_assembled (name date : text) (total : Z) (pages : gmap Z text) :
  md_pieces name date total pages
  = md_head name date total ++ page_sections 1 (assembled_contents total pages).
Proof.
  unfold md_pieces, md_head, assembled_contents. f_equal.
  rewrite range_from_one. apply md_pages_general.
Qed.

Lemma assembled_length (total : Z) (pages : gmap Z text) :
  length (assembled_contents total pages) = Z.to_nat total.
Proof.
  unfold assembled_contents. rewrite length_fmap, range_length. lia.
Qed.

Lemma assembled_lookup (total : Z) (pages : gmap Z text) (j : nat) :
  (j < Z.to_nat total)%nat →
  assembled_contents total pages !! j
  = Some (default (lit "[Missing]") (pages !! (Z.of_nat j + 1))).
Proof.
  intros Hj. unfold assembled_contents, range.
  rewrite list_lookup_fmap, lookup_seqZ_lt by lia. simpl.
  do 3 f_equal. lia.
Qed.

Lemma sections_text (k : Z) (cs : list text) :
  concat (page_sections k cs) = sections_from k cs.
Proof.
  revert k. induction cs as [|c cs IH]; intros k; [done|].
  rewrite page_sections_cons, concat_app, IH.
  unfold section_pieces. rewrite concat3. cbn [sections_from].
  by rewrite <- !app_assoc.
Qed.

Lemma document_text (name date : text) (total : Z) (pages : gmap Z text) :
  document (md_pieces name date total pages)
  = concat (md_head name date total)
    ++ sections_from 1 (assembled_contents total pages).
Proof.
  unfold document. by rewrite md_pieces_assembled, concat_app, sections_text.
Qed.

End AssemblyFacts.

(** ** Module 1: the page extraction coordinator *)

Section CoordinatorFacts.

Import Module1.

Variable extraction_call : Z → text → outcome.

Lemma extract_page_fst (img : text) (n : Z) : (extract_page extraction_call img n).1 = n.
Proof. unfold Module1.extract_page. by destruct (extraction_call n img). Qed.

Lemma extract_page_raised (img : text) (n : Z) (cause : text) :
  extraction_call n img = Raised cause →
  extract_page extraction_call img n = (n, lit "[Error: " ++ cause ++ lit "]").
Proof. intros H. unfold Module1.extract_page. by rewrite H. Qed.

Lemma extract_page_returned (img : text) (n : Z) (content : text) :
  extraction_call n img = Returned content → extract_page extraction_call img n = (n, content).
Proof. intros H. unfold Module1.extract_page. by rewrite H. Qed.

Lemma pool_inv_init (images : list text) : pool_inv extraction_call images (submit_all images).
Proof.
  unfold submit_all. split_and!; simpl.
  - apply length_replicate.
  - lia.
  - by intros j Hj%not_elem_of_nil.
  - intros j Hj. exists Queued. simpl. split_and!; [lia|apply not_elem_of_nil|].
    by apply lookup_replicate_2.
Qed.

Lemma pool_inv_step (images : list text) (W : Z) (st st' : pool) :
  pool_inv extraction_call images st → pool_step extraction_call images W st st' →
  pool_inv extraction_call images st'.
Proof.
  intros (Hlen & Hstarted & Hrunning & Htasks) Hstep.
  destruct Hstep as [st Hlt HW|st j0 img Hrun Himg].
  - split_and!; simpl; [done|lia| |].
    { intros j [Hj|Hj%list_elem_of_singleton]%elem_of_app; [|lia].
      apply Hrunning in Hj. lia. }
    intros j Hj.
    destruct (Htasks j Hj) as [s Hs].
    destruct (decide (j = started st)) as [->|Hne].
    + exists InFlight. destruct s; simpl in *; destruct Hs as (? & ? & ?); try lia.
      split_and!; [lia|apply elem_of_app; right; left|done].
    + exists s. destruct s; simpl in *; destruct Hs as (? & ? & ?);
        (split_and!;
         [lia|rewrite elem_of_app, list_elem_of_singleton; tauto|done]).
  - assert (j0 < length images)%nat as Hj0 by (by eapply lookup_lt_Some).
    split_and!; simpl; [by rewrite length_insert|done| |].
    { intros j [_ Hj]%list_elem_of_filter. by apply Hrunning. }
    intros j Hj.
    destruct (Htasks j Hj) as [s Hs].
    destruct (decide (j = j0)) as [->|Hne].
    + exists Completed. destruct s; simpl in *; destruct Hs as (? & ? & ?); try done.
      split_and!; [done| |].
      * rewrite list_elem_of_filter. tauto.
      * exists img. split; [done|]. apply list_lookup_insert_eq. lia.
    + exists s.
      destruct s; simpl in *; destruct Hs as (? & ? & ?);
        (split_and!; [done|rewrite list_elem_of_filter; tauto|]);
        rewrite ?list_lookup_insert_ne by done; done.
Qed.

Lemma pool_inv_reachable (images : list text) (W : Z) (st : pool) :
  rtc (pool_step extraction_call images W) (submit_all images) st →
  pool_inv extraction_call images st.
Proof.
  revert st. apply (rtc_ind_r (fun st => pool_inv extraction_call images st)).
  - apply pool_inv_init.
  - intros st st' _ Hstep IH. by eapply pool_inv_step.
Qed.

(** Whatever the schedule, the gathered pairs are the results of the page
    tasks in submission order. *)
Lemma gather_complete (images : list text) (st : pool) (pairs : list (Z * text)) :
  pool_inv extraction_call images st → gather st = Some pairs →
  pairs = imap (fun j img => extract_page extraction_call img (Z.of_nat j + 1)) images.
Proof.
  intros (Hlen & _ & _ & Htasks) Hg. unfold gather in Hg.
  apply mapM_Some in Hg.
  pose proof (Forall2_length _ _ _ Hg) as Hlen2.
  apply list_eq; intros j. rewrite list_lookup_imap.
  destruct (decide (j < length images)%nat) as [Hj|Hj].
  - destruct (lookup_lt_is_Some_2 pairs j ltac:(lia)) as [p Hp].
    destruct (lookup_lt_is_Some_2 (futures st) j ltac:(lia)) as [f Hf].
    pose proof (Forall2_lookup_lr _ _ _ _ _ _ Hg Hf Hp) as Hfp. simpl in Hfp.
    subst f. rewrite Hp.
    destruct (Htasks j Hj) as [s Hs].
    destruct s; simpl in Hs; destruct Hs as (_ & _ & Hs); try congruence.
    destruct Hs as (img & Himg & Hfut). rewrite Himg. simpl. congruence.
  - rewrite (lookup_ge_None_2 pairs) by lia.
    by rewrite (lookup_ge_None_2 images) by lia.
Qed.

(** While a future is unfilled the pool can move: no schedule gets stuck
    as long as there is one worker. *)
Lemma pool_progress (images : list text) (W : Z) (st : pool) :
  1 <= W → pool_inv extraction_call images st → gather st = None →
  ∃ st', pool_step extraction_call images W st st'.
Proof.
  intros HW (Hlen & Hstarted & Hrunning & Htasks) Hg. unfold gather in Hg.
  apply mapM_None, Exists_exists in Hg as (f & Hf & Hnone).
  simpl in Hnone. subst f.
  apply list_elem_of_lookup in Hf as [j Hj].
  assert (j < length images)%nat as Hlt
    by (rewrite <- Hlen; by eapply lookup_lt_Some).
  destruct (running st) as [|j0 r] eqn:Hrun.
  - destruct (Htasks j Hlt) as [s Hs].
    destruct s; simpl in Hs; destruct Hs as (? & Hin & Hs).
    + eexists. apply step_start; [lia|]. rewrite Hrun. simpl. lia.
    + rewrite Hrun in Hin. by apply not_elem_of_nil in Hin.
    + destruct Hs as (? & ? & ?). congruence.
  - pose proof (Hrunning j0 ltac:(left)) as Hlt0.
    destruct (lookup_lt_is_Some_2 images j0 ltac:(lia)) as [img Himg].
    eexists. eapply step_finish; [|done]. rewrite Hrun. left.
Qed.

Lemma pool_step_decreases (images : list text) (W : Z) (st st' : pool) :
  pool_step extraction_call images W st st' →
  (steps_left images st' < steps_left images st)%nat.
Proof.
  unfold steps_left. intros [st0 Hlt HW|st0 j0 img Hrun Himg]; simpl.
  - rewrite length_app. simpl. lia.
  - pose proof (length_filter_lt (fun k => k ≠ j0) (running st0) j0 Hrun) as H.
    specialize (H ltac:(tauto)). lia.
Qed.

(** With one worker or more, every pool state runs to completion. *)
Lemma pool_completes (images : list text) (W : Z) (st : pool) :
  1 <= W → pool_inv extraction_call images st →
  ∃ st' pairs, rtc (pool_step extraction_call images W) st st'
               ∧ gather st' = Some pairs.
Proof.
  intros HW. remember (steps_left images st) as n eqn:Hn. revert st Hn.
  induction n as [n IH] using lt_wf_ind; intros st -> Hinv.
  destruct (gather st) as [pairs|] eqn:Hg.
  - by exists st, pairs.
  - destruct (pool_progress images W st HW Hinv Hg) as [st1 Hstep].
    destruct (IH _ (pool_step_decreases _ _ _ _ Hstep) st1 eq_refl
                 (pool_inv_step _ _ _ _ Hinv Hstep)) as (st' & pairs & Hrun & Hg').
    exists st', pairs. split; [|done]. by eapply rtc_l.
Qed.

Lemma task_pairs_dict (images : list text) :
  dict_of_pairs
    (imap (fun j img => extract_page extraction_call img (Z.of_nat j + 1)) images)
  = page_map (extracted extraction_call images).
Proof.
  unfold page_map, extracted. f_equal.
  apply list_eq; intros j. rewrite !list_lookup_imap.
  destruct (images !! j) as [img|]; [|done]. simpl. f_equal.
  rewrite <- (extract_page_fst img (Z.of_nat j + 1)) at 2.
  by destruct (extract_page extraction_call img (Z.of_nat j + 1)).
Qed.

(** Every schedule of [extract_parallel] ends with the same dict. *)
Lemma extract_parallel_results (images : list text) (W : Z) (results : gmap Z text) :
  extract_parallel extraction_call images W results →
  results = page_map (extracted extraction_call images).
Proof.
  intros (_ & st & pairs & Hrun & Hg & ->).
  apply pool_inv_reachable in Hrun.
  rewrite (gather_complete images st pairs Hrun Hg).
  apply task_pairs_dict.
Qed.

Lemma extract_parallel_returns (images : list text) (W : Z) :
  1 <= W → ∃ results, extract_parallel extraction_call images W results.
Proof.
  intros HW.
  destruct (pool_completes images W (submit_all images) HW (pool_inv_init images))
    as (st & pairs & Hrun & Hg).
  exists (dict_of_pairs pairs). split; [done|]. by exists st, pairs.
Qed.

Lemma md_pages_sections (pages : gmap Z text) (cs : list text) (k : Z) :
  (∀ j c, cs !! j = Some c → pages !! (k + Z.of_nat j) = Some c) →
  flat_map (md_page pages) (range k (k + Z.of_nat (length cs)))
  = page_sections k cs.
Proof.
  unfold page_sections.
  revert k; induction cs as [|c cs IH]; intros k Hpages.
  - simpl. by rewrite range_nil by lia.
  - rewrite range_cons by (simpl; lia). cbn [flat_map].
    rewrite imap_cons. cbn [concat].
    pose proof (Hpages 0%nat c eq_refl) as H0. rewrite Z.add_0_r in H0.
    replace (k + Z.of_nat (length (c :: cs)))
      with (k + 1 + Z.of_nat (length cs)) by (simpl; lia).
    rewrite IH.
    + f_equal.
      * unfold md_page, section_pieces. by rewrite H0, Z.add_0_r.
      * f_equal. apply imap_ext. intros j c' _. simpl. f_equal. lia.
    + intros j c' Hj.
      replace (k + 1 + Z.of_nat j) with (k + Z.of_nat (S j)) by lia.
      by apply Hpages.
Qed.

Lemma md_pieces_sections (name date : text) (cs : list text) :
  md_pieces name date (Z.of_nat (length cs)) (page_map cs)
  = md_head name date (Z.of_nat (length cs)) ++ page_sections 1 cs.
Proof.
  unfold md_pieces, md_head. f_equal.
  replace (Z.of_nat (length cs) + 1) with (1 + Z.of_nat (length cs)) by lia.
  apply md_pages_sections. intros j c Hj.
  replace (1 + Z.of_nat j) with (Z.of_nat j + 1) by lia.
  by rewrite page_map_lookup_index.
Qed.

Lemma extracted_length (images : list text) :
  length (extracted extraction_call images) = length images.
Proof. unfold extracted. apply length_imap. Qed.

Lemma extracted_lookup (images : list text) (j : nat) (img : text) :
  images !! j = Some img →
  extracted extraction_call images !! j
  = Some (extract_page extraction_call img (Z.of_nat j + 1)).2.
Proof. intros H. unfold extracted. by rewrite list_lookup_imap, H. Qed.

(** The text [pdf_to_markdown] returns, written out: the two head lines,
    then one section for each page number 1..total. *)
Lemma pdf_to_markdown_document (name date : text) (total : Z)
    (images : list text) (W : Z) (out : text) :
  pdf_to_markdown extraction_call name date total images W out →
  out = (lit "# " ++ name ++ nl)
        ++ (lit "**Pages:** " ++ str_of_int total ++ lit " | **Date:** "
              ++ date ++ nl ++ nl ++ lit "---" ++ nl ++ nl)
        ++ sections_from 1
             (assembled_contents total
                (page_map (extracted extraction_call images))).
Proof.
  intros (results & Hres & ->).
  rewrite (extract_parallel_results _ _ _ Hres), document_text.
  unfold md_head. cbn [concat]. by rewrite app_nil_r, <- !app_assoc.
Qed.

Lemma assembled_extracted (images : list text) (total : Z) (j : nat) :
  (j < Z.to_nat total)%nat →
  assembled_contents total (page_map (extracted extraction_call images)) !! j
  = Some (default (lit "[Missing]") (extracted extraction_call images !! j)).
Proof.
  intros Hj. by rewrite assembled_lookup, page_map_lookup_index.
Qed.

Lemma assembled_all (cs : list text) :
  assembled_contents (Z.of_nat (length cs)) (page_map cs) = cs.
Proof.
  apply list_eq. intros j.
  destruct (decide (j < length cs)%nat) as [Hj|Hj].
  - rewrite assembled_lookup, page_map_lookup_index by lia.
    by destruct (lookup_lt_is_Some_2 cs j Hj) as [c ->].
  - rewrite !lookup_ge_None_2; [done|lia|rewrite assembled_length; lia].
Qed.

(** C1, amended: for every sequence of N page images, every page count
    [total] reported for the PDF and every concurrency bound W >= 1 (in
    particular 1 <= W <= N), the coordinator returns: a schedule that
    fills all futures exists, no schedule gets stuck before that, and
    every scheduling step brings the pool closer to completion.  Every
    completed schedule yields the same page-number-keyed dict.  The
    document returned is the two head lines followed by exactly [total]
    page sections numbered 1, 2, ..., total in this order, each of the
    form [## Page <i>], two newlines, the content, the separator; the
    content of section j+1 is the entry of the j-th page task for
    j < N and [[Missing]] beyond.  So the document has exactly N page
    sections 1..N, carrying the N entries, when the page count is N;
    and for a given time stamp it does not depend on the order in which
    the tasks completed. *)
Theorem coordinator_page_order (name date : text) (images : list text)
    (W total : Z) :
  1 <= W →
  let contents := extracted extraction_call images in
  let written := assembled_contents total (page_map contents) in
  length contents = length images
  ∧ (∃ out, pdf_to_markdown extraction_call name date total images W out)
  ∧ (∀ st, rtc (pool_step extraction_call images W) (submit_all images) st →
           gather st = None →
           ∃ st', pool_step extraction_call images W st st')
  ∧ (∀ st st', pool_step extraction_call images W st st' →
               (steps_left images st' < steps_left images st)%nat)
  ∧ (∀ results, extract_parallel extraction_call images W results →
                results = page_map contents)
  ∧ (∀ out, pdf_to_markdown extraction_call name date total images W out →
            out = (lit "# " ++ name ++ nl)
                  ++ (lit "**Pages:** " ++ str_of_int total
                        ++ lit " | **Date:** " ++ date
                        ++ nl ++ nl ++ lit "---" ++ nl ++ nl)
                  ++ sections_from 1 written)
  ∧ length written = Z.to_nat total
  ∧ (∀ j, (j < Z.to_nat total)%nat →
          written !! j = Some (default (lit "[Missing]") (contents !! j)))
  ∧ (total = Z.of_nat (length images) → written = contents).
Proof.
  intros HW contents written. split_and!.
  - apply extracted_length.
  - destruct (extract_parallel_returns images W HW) as [results Hres].
    eexists. by exists results.
  - intros st Hrun Hg. apply pool_progress; [done| |done].
    by eapply pool_inv_reachable.
  - apply pool_step_decreases.
  - apply extract_parallel_results.
  - apply pdf_to_markdown_document.
  - apply assembled_length.
  - apply assembled_extracted.
  - intros ->. unfold written.
    rewrite <- (extracted_length images). apply assembled_all.
Qed.

(** C5: if the extraction call for page k+1 raises, the coordinator call
    still returns, and in every dict it returns the entry of page k+1 is
    the failure marker [[Error: <cause>]], the entry of every other page
    is what that page's own extraction task returned (the content its
    call returned, when it returned), and the dict has N entries. *)
Theorem single_page_failure_isolated (images : list text) (W : Z) (k : nat)
    (img cause : text) :
  1 <= W → images !! k = Some img →
  extraction_call (Z.of_nat k + 1) img = Raised cause →
  (∃ results, extract_parallel extraction_call images W results)
  ∧ ∀ results, extract_parallel extraction_call images W results →
      results !! (Z.of_nat k + 1) = Some (lit "[Error: " ++ cause ++ lit "]")
      ∧ (∀ j img', j ≠ k → images !! j = Some img' →
           results !! (Z.of_nat j + 1)
           = Some (extract_page extraction_call img' (Z.of_nat j + 1)).2)
      ∧ (∀ j img' content, images !! j = Some img' →
           extraction_call (Z.of_nat j + 1) img' = Returned content →
           results !! (Z.of_nat j + 1) = Some content)
      ∧ size results = length images.
Proof.
  intros HW Hk Hraise. split; [by apply extract_parallel_returns|].
  intros results ->%extract_parallel_results. split_and!.
  - rewrite page_map_lookup_index, (extracted_lookup images k img Hk).
    by rewrite (extract_page_raised _ _ cause).
  - intros j img' _ Hj.
    by rewrite page_map_lookup_index, (extracted_lookup images j img' Hj).
  - intros j img' content Hj Hret.
    rewrite page_map_lookup_index, (extracted_lookup images j img' Hj).
    by rewrite (extract_page_returned _ _ content).
  - by rewrite page_map_size, extracted_length.
Qed.

End CoordinatorFacts.

Lemma coordinator_page_order_witness :
  ∃ out, Module1.pdf_to_markdown fails_on_page_2 (lit "a.pdf") (lit "today") 3
           three_images 2 out
         ∧ out = lit "# a.pdf" ++ nl
                 ++ lit "**Pages:** 3 | **Date:** today" ++ nl ++ nl
                 ++ lit "---" ++ nl ++ nl
                 ++ lit "## Page 1" ++ nl ++ nl ++ lit "img1" ++ nl ++ nl
                 ++ lit "---" ++ nl ++ nl
                 ++ lit "## Page 2" ++ nl ++ nl ++ lit "[Error: timeout]"
                 ++ nl ++ nl ++ lit "---" ++ nl ++ nl
                 ++ lit "## Page 3" ++ nl ++ nl ++ lit "img3" ++ nl ++ nl
                 ++ lit "---" ++ nl ++ nl.
Proof.
  destruct (coordinator_page_order fails_on_page_2 (lit "a.pdf") (lit "today")
              three_images 2 3 ltac:(lia))
    as (_ & [out Hout] & _ & _ & _ & Hdoc & _).
  exists out. split; [exact Hout|exact (Hdoc out Hout)].
Defined.

(** C1, as stated, fails when the page count reported for the PDF is not
    the number of page images: with three images and a reported count of
    two the document has the sections of the pages 1 and 2 only. *)
Lemma page_count_counterexample :
  length three_images = 3%nat
  ∧ ∃ out, Module1.pdf_to_markdown fails_on_page_2 (lit "a.pdf") (lit "today") 2
             three_images 2 out
           ∧ out = lit "# a.pdf" ++ nl
                   ++ lit "**Pages:** 2 | **Date:** today" ++ nl ++ nl
                   ++ lit "---" ++ nl ++ nl
                   ++ lit "## Page 1" ++ nl ++ nl ++ lit "img1" ++ nl ++ nl
                   ++ lit "---" ++ nl ++ nl
                   ++ lit "## Page 2" ++ nl ++ nl ++ lit "[Error: timeout]"
                   ++ nl ++ nl ++ lit "---" ++ nl ++ nl
           ∧ occurs (lit "## Page 3") out = false.
Proof.
  split; [done|].
  destruct (extract_parallel_returns fails_on_page_2 three_images 2 ltac:(lia))
    as [results Hres].
  assert (Module1.pdf_to_markdown fails_on_page_2 (lit "a.pdf") (lit "today") 2
            three_images 2
            (Module1.document
               (Module1.md_pieces (lit "a.pdf") (lit "today") 2 results)))
    as Hrun by (by exists results).
  eexists. split; [exact Hrun|].
  rewrite (pdf_to_markdown_document _ _ _ _ _ _ _ Hrun). by vm_compute.
Qed.

Lemma single_page_failure_isolated_witness :
  ∃ results, Module1.extract_parallel fails_on_page_2 three_images 2 results
    ∧ results !! 2 = Some (lit "[Error: timeout]")
    ∧ results !! 1 = Some (lit "img1")
    ∧ results !! 3 = Some (lit "img3")
    ∧ size results = 3%nat.
Proof.
  destruct (single_page_failure_isolated fails_on_page_2 three_images 2 1
              (lit "img2") (lit "timeout") ltac:(lia) eq_refl eq_refl)
    as [[results Hres] H].
  destruct (H results Hres) as (Hk & _ & Hok & Hsize).
  exists results. split_and!; [exact Hres|exact Hk| | |exact Hsize].
  - exact (Hok 0%nat (lit "img1") (lit "img1") eq_refl eq_refl).
  - exact (Hok 2%nat (lit "img3") (lit "img3") eq_refl eq_refl).
Defined.

(** Two workers may complete two pages in either order. *)
Lemma completion_order_is_free :
  let step := Module1.pool_step fails_on_page_2 [lit "img1"; lit "img2"] 2 in
  let init := Module1.submit_all [lit "img1"; lit "img2"] in
  (∃ st, rtc step init st
         ∧ Module1.futures st = [Some (1, lit "img1"); None])
  ∧ (∃ st, rtc step init st
           ∧ Module1.futures st = [None; Some (2, lit "[Error: timeout]")]).
Proof.
  intros step init.
  assert (rtc step init (Module1.Pool 2 [0; 1]%nat [None; None])) as Hboth.
  { eapply rtc_l; [apply Module1.step_start; simpl; lia|].
    eapply rtc_l; [apply Module1.step_start; simpl; lia|]. apply rtc_refl. }
  split.
  - eexists. split.
    + eapply rtc_r; [exact Hboth|].
      apply (Module1.step_finish _ _ _ _ 0%nat (lit "img1")); [left|done].
    + done.
  - eexists. split.
    + eapply rtc_r; [exact Hboth|].
      apply (Module1.step_finish _ _ _ _ 1%nat (lit "img2")); [right; left|done].
    + done.
Qed.

(** ** Module 2: runs of the rule extraction *)

Section Stage2Facts.

Import Module2.

Context {service : Type}.
Variable create : request → service → outcome * service.

Lemma window_content_raise (pages : gmap Z text) (l : list Z) (e : exn) :
  window_content pages l = Raise e →
  ∃ k, e = KeyError k ∧ k ∈ l ∧ pages !! k = None.
Proof.
  induction l as [|k l IH]; simpl; [done|].
  destruct (pages !! k) as [c|] eqn:Hk.
  - destruct (window_content pages l) as [entries|e']; [done|].
    intros [= ->]. destruct (IH eq_refl) as (k' & -> & Hin & Hnone).
    exists k'. split_and!; [done|by right|done].
  - intros [= <-]. exists k. split_and!; [done|by left|done].
Qed.

Lemma window_content_length (pages : gmap Z text) (l : list Z)
    (entries : list text) :
  window_content pages l = Ok entries → length entries = length l.
Proof.
  revert entries. induction l as [|k l IH]; simpl; intros entries.
  - by intros [= <-].
  - destruct (pages !! k); [|done].
    destruct (window_content pages l) as [en|]; [|done].
    intros [= <-]. simpl. f_equal. by apply IH.
Qed.

Lemma window_content_ok (pages : gmap Z text) (l : list Z) :
  (∀ k, k ∈ l → is_Some (pages !! k)) ↔
  ∃ entries, window_content pages l = Ok entries.
Proof.
  induction l as [|k l IH]; simpl.
  - split; [by exists []|]. by intros _ k Hk%not_elem_of_nil.
  - split.
    + intros Hall. destruct (Hall k ltac:(left)) as [c ->].
      destruct (proj1 IH) as (entries & ->); [|by eexists].
      intros k' Hk'. apply Hall. by right.
    + intros (entries & Hok) k' Hk'.
      destruct (pages !! k) as [c|] eqn:Hk; [|done].
      destruct (window_content pages l) as [entries'|] eqn:Hl; [|done].
      apply elem_of_cons in Hk' as [->|Hk']; [by rewrite Hk|].
      apply (proj2 IH); [by exists entries'|done].
Qed.

Lemma chat_run (req : request) (w : world service) :
  ∃ o, answered create (req, o)
       ∧ files (chat create req w).2 = files w
       ∧ calls (chat create req w).2 = calls w ++ [(req, o)]
       ∧ (chat create req w).1
         = match o with
           | Returned content => Ok content
           | Raised cause => Raise (ServiceError cause)
           end.
Proof.
  unfold chat, answered. destruct (create req (svc w)) as [o s'] eqn:E.
  exists o. split; [exists (svc w); simpl; by rewrite E|]. by destruct o.
Qed.

Lemma window_request_of_ok (pages : gmap Z text) (P i : Z) (entries : list text) :
  window_content pages (window_pages P i) = Ok entries →
  window_request_of pages P i
  = Some (window_request (start_page i) (end_page P i) i (join nl entries)).
Proof. intros H. unfold window_request_of. by rewrite H. Qed.

Lemma window_calls_nil (pages : gmap Z text) (P : Z) :
  window_calls pages P [] [] [].
Proof. split; [constructor|done]. Qed.

Lemma window_calls_cons (pages : gmap Z text) (P i : Z) (focus : list Z)
    (req : request) (report : text) (reports : list text)
    (new : list (request * outcome)) :
  window_request_of pages P i = Some req →
  window_calls pages P focus reports new →
  window_calls pages P (i :: focus) (report :: reports)
               ((req, Returned report) :: new).
Proof.
  intros Hreq [Hall Hout]. split; [by constructor|].
  by rewrite !fmap_cons, Hout.
Qed.

Lemma window_calls_returned (pages : gmap Z text) (P : Z) (focus : list Z)
    (reports : list text) (new : list (request * outcome)) :
  window_calls pages P focus reports new → Forall returned new.
Proof.
  intros [_ Hout]. apply Forall_forall. intros [req o] Hin.
  assert (o ∈ new.*2) as Ho by (apply list_elem_of_fmap; by exists (req, o)).
  rewrite Hout in Ho. apply list_elem_of_fmap in Ho as (t & -> & _).
  by exists t.
Qed.

Lemma window_calls_length (pages : gmap Z text) (P : Z) (focus : list Z)
    (reports : list text) (new : list (request * outcome)) :
  window_calls pages P focus reports new →
  length new = length focus ∧ length reports = length focus.
Proof.
  intros [Hall Hout]. apply Forall2_length in Hall.
  apply (f_equal length) in Hout. rewrite !length_fmap in Hout. lia.
Qed.

(** What a run of the window loop does: it sends the window requests of
    the remaining focus pages in order and collects their reports; it
    ends early at the first window with an absent page or a failing call,
    with that error. *)
Lemma window_loop_run (pages : gmap Z text) (P : Z) (remaining : list Z)
    (acc : list text) (w : world service) :
  let run := window_loop create pages P remaining acc w in
  files run.2 = files w
  ∧ ∃ new, calls run.2 = calls w ++ new
    ∧ Forall (answered create) new
    ∧ match run.1 with
      | Ok exts =>
          ∃ reports, exts = acc ++ reports
                     ∧ window_calls pages P remaining reports new
      | Raise e =>
          ∃ done i rest reports pre,
            remaining = done ++ i :: rest
            ∧ window_calls pages P done reports pre
            ∧ ((window_content pages (window_pages P i) = Raise e ∧ new = pre)
               ∨ ∃ req cause, window_request_of pages P i = Some req
                   ∧ new = pre ++ [(req, Raised cause)]
                   ∧ e = ServiceError cause)
      end.
Proof.
  revert acc w. induction remaining as [|i rest IH]; intros acc w run.
  - subst run. simpl. split; [done|]. exists []. rewrite app_nil_r.
    split; [done|]. split; [constructor|]. exists []. rewrite app_nil_r.
    split; [done|]. apply window_calls_nil.
  - subst run. cbn [window_loop]. unfold bind at 1, lift.
    destruct (window_content pages (window_pages P i)) as [entries|e] eqn:Hwc.
    + pose proof (window_request_of_ok _ _ _ _ Hwc) as Hreq.
      unfold bind.
      set (req := window_request (start_page i) (end_page P i) i (join nl entries)) in *.
      destruct (chat_run req w) as (o & Hans & Hf1 & Hc1 & Hr1).
      destruct (chat create req w) as [r1 w1]. simpl in Hf1, Hc1, Hr1.
      destruct o as [content|cause]; subst r1.
      * specialize (IH (acc ++ [content]) w1). cbv zeta in IH. cbv beta iota.
        destruct (window_loop create pages P rest (acc ++ [content]) w1)
          as [r2 w2].
        simpl in IH |- *. destruct IH as (Hf2 & new & Hc2 & Hans2 & Hres).
        split; [congruence|].
        exists ((req, Returned content) :: new).
        split; [rewrite Hc2, Hc1; by rewrite <- app_assoc|].
        split; [by constructor|].
        destruct r2 as [exts|e].
        -- destruct Hres as (reports & -> & Hcalls).
           exists (content :: reports). split; [by rewrite <- app_assoc|].
           by apply window_calls_cons.
        -- destruct Hres as (done & i' & rest' & reports & pre & -> & Hcalls & Hend).
           exists (i :: done), i', rest', (content :: reports),
                  ((req, Returned content) :: pre).
           split; [done|]. split; [by apply window_calls_cons|].
           destruct Hend as [[Hk ->]|(req' & cause & Hreq' & -> & ->)];
             [by left|right]. by exists req', cause.
      * simpl. split; [done|]. exists [(req, Raised cause)].
        split; [done|]. split; [by repeat constructor|].
        exists [], i, rest, [], []. split; [done|].
        split; [apply window_calls_nil|]. right. by exists req, cause.
    + simpl. split; [done|]. exists []. rewrite app_nil_r. split; [done|].
      split; [constructor|].
      exists [], i, rest, [], []. split; [done|].
      split; [apply window_calls_nil|]. by left.
Qed.

Lemma window_in_document (P i k : Z) :
  1 <= i <= P → k ∈ window_pages P i → 1 <= k <= P.
Proof.
  intros Hi Hk%window_pages_elem. unfold start_page, end_page in Hk. lia.
Qed.

Lemma focus_in_window (P i : Z) : 1 <= i <= P → i ∈ window_pages P i.
Proof.
  intros Hi. apply window_pages_elem. unfold start_page, end_page. lia.
Qed.

(** What a run of the windows and the consolidation does. *)
Lemma windows_then_consolidate_run (pages : gmap Z text) (P : Z)
    (w : world service) :
  let run := windows_then_consolidate create pages P w in
  files run.2 = files w
  ∧ ∃ new, calls run.2 = calls w ++ new
    ∧ Forall (answered create) new
    ∧ match run.1 with
      | Ok final =>
          ∃ reports wnew,
            window_calls pages P (range 1 (P + 1)) reports wnew
            ∧ new = wnew ++ [(consolidation_request P reports, Returned final)]
      | Raise e =>
          fail_fast new (@Raise text e)
          ∧ ((∃ cause, e = ServiceError cause)
             ∨ ∃ k, e = KeyError k ∧ 1 <= k <= P ∧ pages !! k = None)
      end.
Proof.
  intros run. subst run. unfold windows_then_consolidate, bind.
  pose proof (window_loop_run pages P (range 1 (P + 1)) [] w) as Hloop.
  cbv zeta in Hloop.
  destruct (window_loop create pages P (range 1 (P + 1)) [] w) as [r1 w1].
  simpl in Hloop. destruct Hloop as (Hf1 & wnew & Hc1 & Hans1 & Hres).
  destruct r1 as [exts|e].
  - destruct Hres as (reports & -> & Hcalls). simpl.
    destruct (chat_run (consolidation_request P reports) w1)
      as (o & Hans & Hf2 & Hc2 & Hr2).
    destruct (chat create (consolidation_request P reports) w1) as [r2 w2].
    simpl in Hf2, Hc2, Hr2 |- *.
    split; [congruence|].
    exists (wnew ++ [(consolidation_request P reports, o)]).
    split; [rewrite Hc2, Hc1; by rewrite <- app_assoc|].
    split; [apply Forall_app; split; [done|by repeat constructor]|].
    destruct o as [final|cause]; subst r2.
    + by exists reports, wnew.
    + split; [|left; by exists cause].
      exists wnew. split; [by eapply window_calls_returned|].
      right. by exists (consolidation_request P reports), cause.
  - simpl. split; [done|]. exists wnew. split; [done|]. split; [done|].
    destruct Hres as (done & i & rest & reports & pre & Hrange & Hcalls & Hend).
    assert (1 <= i <= P) as Hi.
    { assert (i ∈ range 1 (P + 1)) as Hin
        by (rewrite Hrange; apply elem_of_app; right; left).
      apply range_elem in Hin. lia. }
    destruct Hend as [[Hk ->]|(req & cause & Hreq & -> & ->)].
    + apply window_content_raise in Hk as (k & -> & Hin & Hnone).
      split.
      * exists pre. split; [by eapply window_calls_returned|]. by left.
      * right. exists k. split; [done|]. split; [|done].
        by eapply window_in_document.
    + split; [|left; by exists cause].
      exists pre. split; [by eapply window_calls_returned|].
      right. by exists req, cause.
Qed.

Lemma returned_not_raised (req : request) (cause : text) :
  ¬ returned (req, Raised cause).
Proof. by intros [content Hc]. Qed.

(** Under the fail-fast discipline a raising call is the last call of the
    run and its error is the error of the run. *)
Lemma fail_fast_raised {A} (new : list (request * outcome)) (r : result A)
    (req : request) (cause : text) :
  fail_fast new r → (req, Raised cause) ∈ new →
  r = Raise (ServiceError cause) ∧ last new = Some (req, Raised cause).
Proof.
  intros Hff Hin. destruct r as [a|e]; simpl in Hff.
  - rewrite Forall_forall in Hff. by apply Hff, returned_not_raised in Hin.
  - destruct Hff as (pre & Hpre & [[-> _]|(req' & cause' & -> & ->)]).
    + rewrite Forall_forall in Hpre.
      by apply Hpre, returned_not_raised in Hin.
    + apply elem_of_app in Hin as [Hin|Hin].
      * rewrite Forall_forall in Hpre.
        by apply Hpre, returned_not_raised in Hin.
      * apply list_elem_of_singleton in Hin as [= -> ->].
        by rewrite last_snoc.
Qed.

Lemma fail_fast_service_error {A} (new : list (request * outcome)) (cause : text) :
  fail_fast new (@Raise A (ServiceError cause)) →
  ∃ pre req, new = pre ++ [(req, Raised cause)].
Proof.
  intros (pre & _ & [[_ Hne]|(req & cause' & -> & [= ->])]).
  - by destruct (Hne cause).
  - by exists pre, req.
Qed.

Lemma never_raises_answered (req : request) (cause : text) :
  never_raises create → ¬ answered create (req, Raised cause).
Proof.
  intros Hnever [s Hs]. simpl in Hs.
  destruct (Hnever req s) as [content Hc]. congruence.
Qed.

(** What the analysis of a document does, by strategy. *)
Lemma analysis_run (content : text) (pages : gmap Z text) (o : option bool)
    (w : world service) :
  let P := Z.of_nat (size pages) in
  let run := analysis create content pages o w in
  files run.2 = files w
  ∧ ∃ new, calls run.2 = calls w ++ new
    ∧ Forall (answered create) new
    ∧ fail_fast new run.1
    ∧ match run.1 with
      | Ok final =>
          match effective_strategy P o with
          | SinglePass => new = [(single_pass_request content, Returned final)]
          | SlidingWindow =>
              ∃ reports wnew,
                window_calls pages P (range 1 (P + 1)) reports wnew
                ∧ new = wnew ++ [(consolidation_request P reports, Returned final)]
          end
      | Raise e =>
          (∃ cause, e = ServiceError cause)
          ∨ ∃ k, e = KeyError k ∧ 1 <= k <= P ∧ pages !! k = None
                 ∧ effective_strategy P o = SlidingWindow
      end.
Proof.
  intros P run. subst run. unfold analysis. fold P.
  destruct (effective_strategy P o) eqn:Hs.
  - unfold extract_rules_from_markdown_single_pass.
    destruct (chat_run (single_pass_request content) w)
      as (c & Hans & Hf & Hc & Hr).
    split; [done|]. exists [(single_pass_request content, c)].
    split; [done|]. split; [by repeat constructor|].
    rewrite Hr. destruct c as [final|cause]; simpl.
    + split; [|done]. repeat constructor. by exists final.
    + split; [|left; by exists cause].
      exists []. split; [constructor|]. right.
      by exists (single_pass_request content), cause.
  - destruct (windows_then_consolidate_run pages P w)
      as (Hf & new & Hc & Hans & Hres).
    split; [done|]. exists new. split; [done|]. split; [done|].
    destruct (windows_then_consolidate create pages P w).1 as [final|e].
    + split; [|done]. simpl.
      destruct Hres as (reports & wnew & Hcalls & ->).
      apply Forall_app. split; [by eapply window_calls_returned|].
      repeat constructor. by exists final.
    + destruct Hres as [Hff [Hse|(k & -> & Hk & Hnone)]].
      * split; [done|by left].
      * split; [done|right]. by exists k.
Qed.

(** A run of [extract_rules_from_markdown] on a readable file whose text
    parses is the analysis followed by the write of the report. *)
Lemma extract_run (path out : string) (o : option bool) (w : world service)
    (content : text) (pages : gmap Z text) :
  files w !! path = Some content →
  parse_markdown_by_pages content = Some pages →
  let P := Z.of_nat (size pages) in
  let a := analysis create content pages o w in
  extract_rules_from_markdown create path out o w
  = match a.1 with
    | Ok final =>
        (Ok out,
         World (svc a.2) (<[out := report_file (lit path) P final]> (files a.2))
               (calls a.2))
    | Raise e => (Raise e, a.2)
    end.
Proof.
  intros Hfile Hparse P a.
  rewrite (run_by_strategy create path out o w content pages Hfile Hparse).
  cbv zeta. subst a. unfold analysis, bind.
  fold P. destruct (effective_strategy P o).
  - by destruct (extract_rules_from_markdown_single_pass create content w)
      as [[final|e] w1].
  - by destruct (windows_then_consolidate create pages P w) as [[final|e] w1].
Qed.

(** The sliding-window function on a text that parses. *)
Lemma sliding_window_run (content : text) (pages : gmap Z text) :
  parse_markdown_by_pages content = Some pages →
  extract_rules_from_markdown_sliding_window create content
  = analysis create content pages (Some true).
Proof.
  intros Hparse.
  unfold extract_rules_from_markdown_sliding_window, parse_pages.
  rewrite Hparse. unfold bind, lift, analysis,
    effective_strategy, wants_sliding_window. cbv beta iota.
  by destruct (_ <=? 3).
Qed.

Lemma sliding_window_value_error (content : text) (w : world service) :
  parse_markdown_by_pages content = None →
  extract_rules_from_markdown_sliding_window create content w
  = (Raise ValueError, w).
Proof.
  intros Hparse.
  unfold extract_rules_from_markdown_sliding_window, parse_pages, bind, lift.
  by rewrite Hparse.
Qed.

Lemma extract_run_missing (path out : string) (o : option bool)
    (w : world service) :
  files w !! path = None →
  extract_rules_from_markdown create path out o w
  = (Raise (FileNotFoundError (lit path)), w).
Proof.
  intros Hfile. unfold extract_rules_from_markdown, bind, load_markdown_file.
  by rewrite Hfile.
Qed.

(** A page map of size P that has all the keys [1..P] has no other key. *)
Lemma contiguous_iff (pages : gmap Z text) :
  contiguous pages ↔
  Forall (fun k => is_Some (pages !! k)) (range 1 (Z.of_nat (size pages) + 1)).
Proof.
  set (P := Z.of_nat (size pages)). split.
  - intros Hc. apply Forall_forall. intros k Hk%range_elem. apply Hc.
    fold P. lia.
  - rewrite Forall_forall. intros Hall.
    set (X := list_to_set (range 1 (P + 1)) : gset Z).
    assert (X ⊆ dom pages) as Hsub.
    { intros k Hk%elem_of_list_to_set. apply elem_of_dom. by apply Hall. }
    assert (size X = size pages) as Hsize.
    { unfold X. rewrite size_list_to_set by apply NoDup_seqZ.
      rewrite range_length. lia. }
    assert (X = dom pages) as Heq.
    { apply set_subseteq_size_eq; [done|]. rewrite size_dom. lia. }
    intros k. fold P. rewrite <- elem_of_dom, <- Heq.
    unfold X. rewrite elem_of_list_to_set, range_elem. lia.
Qed.

(** A page map that is not contiguous misses a page among [1..P]. *)
Lemma missing_page (pages : gmap Z text) :
  ¬ contiguous pages →
  ∃ k, 1 <= k <= Z.of_nat (size pages) ∧ pages !! k = None.
Proof.
  intros Hnot. set (P := Z.of_nat (size pages)).
  destruct (decide (Exists (fun k => pages !! k = None) (range 1 (P + 1))))
    as [Hex|Hall].
  - apply Exists_exists in Hex as (k & Hk%range_elem & Hnone).
    exists k. split; [lia|done].
  - exfalso. apply Hnot, contiguous_iff.
    apply not_Exists_Forall in Hall; [|intros; apply _].
    eapply Forall_impl; [exact Hall|]. intros k Hk. simpl in Hk.
    by destruct (pages !! k).
Qed.

(** With a service that never raises, the analysis returns unless the
    sliding-window strategy meets a page map that is not contiguous. *)
Lemma analysis_total (content : text) (pages : gmap Z text) (o : option bool)
    (w : world service) :
  let P := Z.of_nat (size pages) in
  never_raises create →
  (effective_strategy P o = SlidingWindow → contiguous pages) →
  ∃ final, (analysis create content pages o w).1 = Ok final.
Proof.
  intros P Hnever Hcont.
  destruct (analysis_run content pages o w) as (_ & new & _ & Hans & Hff & Hres).
  fold P in Hres.
  destruct (analysis create content pages o w).1 as [final|e];
    [by exists final|].
  exfalso. destruct Hres as [[cause ->]|(k & -> & Hk & Hnone & Hs)].
  - apply fail_fast_service_error in Hff as (pre & req & ->).
    apply Forall_app in Hans as [_ Hans]. rewrite Forall_singleton in Hans.
    by eapply never_raises_answered.
  - apply (Hcont Hs) in Hk. rewrite Hnone in Hk. by destruct Hk.
Qed.

End Stage2Facts.
(** ** Module 2: properties of whole runs *)

Section Stage2Runs.

Import Module2.

Context {service : Type}.
Variable create : request → service → outcome * service.

Lemma sliding_window_strategy (P : Z) (o : option bool) :
  effective_strategy P o = SlidingWindow → 3 < P.
Proof.
  unfold effective_strategy.
  destruct (wants_sliding_window P o); [|done].
  destruct (Z.leb_spec P 3); [done|lia].
Qed.

(** The user content of the consolidation request, with the labelled
    reports written out. *)
Lemma consolidation_messages (P : Z) (reports : list text) :
  messages (consolidation_request P reports)
  = [(User,
      lines consolidation_lines_1 ++ str_of_int P
        ++ lines consolidation_lines_2
        ++ join nl
             (imap (fun i ext =>
                      lit "=== WINDOW " ++ str_of_int (Z.of_nat i + 1)
                        ++ lit " ===" ++ nl ++ ext ++ nl) reports)
        ++ lines consolidation_lines_3)].
Proof. reflexivity. Qed.

Lemma consolidation_holds_report (P : Z) (reports : list text) (i : nat)
    (report : text) :
  reports !! i = Some report →
  ∃ before after,
    messages (consolidation_request P reports)
    = [(User,
        before
          ++ (lit "=== WINDOW " ++ str_of_int (Z.of_nat i + 1)
                ++ lit " ===" ++ nl ++ report ++ nl)
          ++ after)].
Proof.
  intros Hi. rewrite consolidation_messages.
  destruct (join_lookup nl
              (imap (fun i ext =>
                       lit "=== WINDOW " ++ str_of_int (Z.of_nat i + 1)
                         ++ lit " ===" ++ nl ++ ext ++ nl) reports) i
              (lit "=== WINDOW " ++ str_of_int (Z.of_nat i + 1)
                 ++ lit " ===" ++ nl ++ report ++ nl)) as (a & b & Hab).
  { by rewrite list_lookup_imap, Hi. }
  rewrite Hab.
  exists (lines consolidation_lines_1 ++ str_of_int P
            ++ lines consolidation_lines_2 ++ a),
         (b ++ lines consolidation_lines_3).
  by rewrite <- !app_assoc.
Qed.

(** C7: in a run of [extract_rules_from_markdown] that returns, the
    sliding-window strategy (P > 3) made exactly P window calls, the i-th
    being the request of the window that focuses on page i, followed by
    exactly one consolidation call, P + 1 calls in all.  The user
    content of the consolidation request is the prompt with, at its
    place, the P window reports in window order, joined by newlines, the
    i-th report as [=== WINDOW i ===], a newline, the report, a newline;
    so each report stands in the request under its own label.  The
    single-pass strategy made exactly one call, the single-pass request,
    and no consolidation call.  With a service that never raises the run
    does return, provided the page map is contiguous when windows are
    built.  A 15-page document under no override takes the
    sliding-window strategy: 16 calls.  P is the size of the page map
    the parser returned for the text of the file. *)
Theorem analysis_call_count (path out : string) (o : option bool)
    (w : world service) (content : text) (pages : gmap Z text) :
  files w !! path = Some content →
  parse_markdown_by_pages content = Some pages →
  let P := Z.of_nat (size pages) in
  let run := extract_rules_from_markdown create path out o w in
  (∀ p, run.1 = Ok p →
     ∃ new, calls run.2 = calls w ++ new
       ∧ match effective_strategy P o with
         | SlidingWindow =>
             3 < P
             ∧ ∃ reports wnew final,
                 window_calls pages P (range 1 (P + 1)) reports wnew
                 ∧ length wnew = Z.to_nat P
                 ∧ length reports = Z.to_nat P
                 ∧ new = wnew ++ [(consolidation_request P reports, Returned final)]
                 ∧ length new = (Z.to_nat P + 1)%nat
                 ∧ messages (consolidation_request P reports)
                   = [(User,
                       lines consolidation_lines_1 ++ str_of_int P
                         ++ lines consolidation_lines_2
                         ++ join nl
                              (imap (fun i ext =>
                                       lit "=== WINDOW "
                                         ++ str_of_int (Z.of_nat i + 1)
                                         ++ lit " ===" ++ nl ++ ext ++ nl)
                                    reports)
                         ++ lines consolidation_lines_3)]
                 ∧ (∀ i report, reports !! i = Some report →
                      ∃ before after,
                        messages (consolidation_request P reports)
                        = [(User,
                            before
                              ++ (lit "=== WINDOW "
                                    ++ str_of_int (Z.of_nat i + 1)
                                    ++ lit " ===" ++ nl ++ report ++ nl)
                              ++ after)])
         | SinglePass =>
             ∃ final, new = [(single_pass_request content, Returned final)]
         end)
  ∧ (never_raises create →
     (effective_strategy P o = SlidingWindow → contiguous pages) →
     run.1 = Ok out)
  ∧ (P = 15 → o ≠ Some false →
     effective_strategy P o = SlidingWindow ∧ (Z.to_nat P + 1)%nat = 16%nat).
Proof.
  intros Hfile Hparse P run. subst run.
  rewrite (extract_run create path out o w content pages Hfile Hparse).
  cbv zeta. fold P. split_and!.
  - intros p Hp.
    destruct (analysis_run create content pages o w)
      as (_ & new & Hc & _ & _ & Hres).
    fold P in Hres.
    destruct (analysis create content pages o w) as [[final|e] w1]; [|done].
    simpl in *. exists new. split; [done|].
    destruct (effective_strategy P o) eqn:Hs; [by exists final|].
    split; [by eapply sliding_window_strategy|].
    destruct Hres as (reports & wnew & Hcalls & ->).
    destruct (window_calls_length _ _ _ _ _ Hcalls) as [Hl1 Hl2].
    rewrite range_length in Hl1, Hl2.
    exists reports, wnew, final. split_and!; try done; try lia.
    + rewrite length_app. simpl. lia.
    + intros i report Hi. by apply consolidation_holds_report.
  - intros Hnever Hcont.
    destruct (analysis_total create content pages o w Hnever Hcont)
      as [final Hfinal].
    destruct (analysis create content pages o w) as [r1 w1]. simpl in Hfinal.
    by subst r1.
  - intros HP Ho. rewrite HP. split; [|done].
    unfold effective_strategy, wants_sliding_window.
    by destruct o as [[]|].
Qed.

(** C8: every run of [extract_rules_from_markdown] is all or nothing.  If
    any call it made (single-pass, a window, or the consolidation)
    raised, that call is its last call, the run ends with the error of
    that call, and no file has been written.  Whenever the run ends with
    an error no file has been written.  When the run returns, every call
    it made returned, and the file it wrote holds the banner followed by
    the answer of its last call, unaltered: there is no failure marker
    and no partial report. *)
Theorem stage2_all_or_nothing (path out : string) (o : option bool)
    (w : world service) :
  let run := extract_rules_from_markdown create path out o w in
  ∃ new, calls run.2 = calls w ++ new
    ∧ (∀ req cause, (req, Raised cause) ∈ new →
         run.1 = Raise (ServiceError cause)
         ∧ last new = Some (req, Raised cause)
         ∧ files run.2 = files w)
    ∧ (∀ e, run.1 = Raise e → files run.2 = files w)
    ∧ (∀ p, run.1 = Ok p →
         p = out ∧ Forall returned new
         ∧ ∃ content pages req report,
             files w !! path = Some content
             ∧ parse_markdown_by_pages content = Some pages
             ∧ last new = Some (req, Returned report)
             ∧ files run.2
               = <[out := report_file (lit path) (Z.of_nat (size pages))
                            report]> (files w)
             ∧ report_file (lit path) (Z.of_nat (size pages)) report
               = concat (replicate 70 (lit "=")) ++ nl
                   ++ lit "RULE EXTRACTION RESULTS" ++ nl
                   ++ lit "Source Markdown: " ++ lit path ++ nl
                   ++ lit "Total Pages: " ++ str_of_int (Z.of_nat (size pages))
                   ++ nl ++ concat (replicate 70 (lit "=")) ++ nl ++ nl
                   ++ report).
Proof.
  intros run. subst run. destruct (files w !! path) as [content|] eqn:Hfile.
  - destruct (parse_markdown_by_pages content) as [pages|] eqn:Hparse.
    + rewrite (extract_run create path out o w content pages Hfile Hparse).
      cbv zeta.
      destruct (analysis_run create content pages o w)
        as (Hf & new & Hc & _ & Hff & Hres).
      destruct (analysis create content pages o w) as [[final|e] w1];
        simpl in *.
      * exists new. split; [done|]. split_and!.
        -- intros req cause Hin.
           by destruct (fail_fast_raised new (Ok final) req cause Hff Hin).
        -- done.
        -- intros p [= <-]. split; [done|]. split; [done|].
           assert (∃ req, last new = Some (req, Returned final)) as [req Hlast].
           { destruct (effective_strategy _ o).
             - rewrite Hres. by eexists.
             - destruct Hres as (reports & wnew & _ & ->).
               rewrite last_snoc. by eexists. }
           exists content, pages, req, final. by rewrite Hf.
      * exists new. split; [done|]. split_and!.
        -- intros req cause Hin.
           by destruct (fail_fast_raised new (@Raise text e) req cause Hff Hin)
             as [[= ->] ?].
        -- done.
        -- done.
    + rewrite (run_value_error create path out o w content Hfile Hparse).
      simpl. exists []. rewrite app_nil_r. split; [done|]. split_and!; try done.
      by intros req cause Hin%not_elem_of_nil.
  - rewrite (extract_run_missing create path out o w Hfile). simpl.
    exists []. rewrite app_nil_r. split; [done|]. split_and!; try done.
    by intros req cause Hin%not_elem_of_nil.
Qed.

(** C9: the window loop subscripts the page map with every page number of
    the clamped window.  For a page map whose key set is exactly
    [1..P], P being its size, each of these lookups succeeds for every
    focus page, and the sliding-window function never ends with a
    [KeyError].  The precondition is needed: on a page map with more than
    three pages that is not contiguous the sliding-window function never
    returns, and with a service that never raises it ends with the
    [KeyError] of a page among [1..P] that the map lacks. *)
Theorem window_lookups_total :
  (∀ pages : gmap Z text, contiguous pages →
     let P := Z.of_nat (size pages) in
     ∀ i, 1 <= i <= P →
       (∀ page_num, page_num ∈ window_pages P i → is_Some (pages !! page_num))
       ∧ ∃ entries, window_content pages (window_pages P i) = Ok entries
                    ∧ length entries = length (window_pages P i))
  ∧ (∀ content w k,
       (∀ pages, parse_markdown_by_pages content = Some pages →
                 contiguous pages) →
       (extract_rules_from_markdown_sliding_window create content w).1
       ≠ Raise (KeyError k))
  ∧ (∀ content pages w,
       parse_markdown_by_pages content = Some pages →
       let P := Z.of_nat (size pages) in
       3 < P → ¬ contiguous pages →
       ∃ e, (extract_rules_from_markdown_sliding_window create content w).1
            = Raise e
            ∧ (never_raises create →
               ∃ k, e = KeyError k ∧ 1 <= k <= P ∧ pages !! k = None)).
Proof.
  split_and!.
  - intros pages Hc P i Hi.
    assert (∀ page_num, page_num ∈ window_pages P i → is_Some (pages !! page_num))
      as Hall.
    { intros k Hk. apply Hc. by eapply window_in_document. }
    split; [done|]. destruct (proj1 (window_content_ok pages _) Hall)
      as [entries Hok].
    exists entries. split; [done|]. by eapply window_content_length.
  - intros content w k Hcont.
    destruct (parse_markdown_by_pages content) as [pages|] eqn:Hparse;
      [|by rewrite sliding_window_value_error].
    specialize (Hcont pages eq_refl).
    rewrite (sliding_window_run create content pages Hparse).
    destruct (analysis_run create content pages (Some true) w)
      as (_ & new & _ & _ & _ & Hres).
    destruct (analysis create content pages (Some true) w).1 as [final|e];
      [done|].
    intros [= ->]. destruct Hres as [[cause [=]]|(k' & [= <-] & Hk & Hnone & _)].
    apply Hcont in Hk. rewrite Hnone in Hk. by destruct Hk.
  - intros content pages w Hparse P HP Hnot.
    rewrite (sliding_window_run create content pages Hparse).
    destruct (analysis_run create content pages (Some true) w)
      as (_ & new & _ & Hans & Hff & Hres).
    fold P in Hres.
    assert (effective_strategy P (Some true) = SlidingWindow) as Hs.
    { unfold effective_strategy. simpl. destruct (Z.leb_spec P 3); [lia|done]. }
    rewrite Hs in Hres.
    destruct (analysis create content pages (Some true) w).1 as [final|e].
    + exfalso. destruct Hres as (reports & wnew & [Hcalls _] & _).
      destruct (missing_page pages Hnot) as (k & Hk & Hnone). fold P in Hk.
      assert (k ∈ range 1 (P + 1)) as Hin by (apply range_elem; lia).
      apply list_elem_of_lookup in Hin as [j Hj].
      destruct (Forall2_lookup_l _ _ _ _ _ Hcalls Hj) as (c & _ & Hreq).
      unfold window_request_of in Hreq.
      destruct (window_content pages (window_pages P k)) as [entries|] eqn:Hwc;
        [|done].
      assert (is_Some (pages !! k)) as [? Hsome].
      { apply (proj2 (window_content_ok pages (window_pages P k)));
          [by exists entries|by apply focus_in_window]. }
      congruence.
    + exists e. split; [done|]. intros Hnever.
      destruct Hres as [[cause ->]|(k & -> & Hk & Hnone & _)].
      * exfalso. apply fail_fast_service_error in Hff as (pre & req & ->).
        apply Forall_app in Hans as [_ Hans]. rewrite Forall_singleton in Hans.
        by eapply never_raises_answered.
      * by exists k.
Qed.

End Stage2Runs.
(** ** Runs of stage 2 on concrete documents *)

Section Stage2Examples.

Import Module2.

Lemma echo_never_raises : never_raises echo_service.
Proof. intros req s. by eexists. Qed.

Lemma four_pages_parsed :
  parse_markdown_by_pages four_pages
  = Some {[ 1 := lit "alpha"; 2 := lit "beta"; 3 := lit "gamma";
            4 := lit "delta" ]}.
Proof. by vm_compute. Qed.

Lemma gapped_document_parsed :
  parse_markdown_by_pages gapped_document
  = Some {[ 1 := lit "alpha"; 2 := lit "beta"; 3 := lit "gamma";
            5 := lit "epsilon" ]}.
Proof. by vm_compute. Qed.

Lemma four_pages_contiguous :
  contiguous {[ 1 := lit "alpha"; 2 := lit "beta"; 3 := lit "gamma";
                4 := lit "delta" ]}.
Proof.
  apply contiguous_iff. vm_compute.
  repeat (constructor; [by eexists|]). constructor.
Qed.

Lemma gapped_not_contiguous :
  ¬ contiguous {[ 1 := lit "alpha"; 2 := lit "beta"; 3 := lit "gamma";
                  5 := lit "epsilon" ]}.
Proof.
  intros Hc. destruct (proj2 (Hc 4)) as [c Hc4]; [by vm_compute|].
  vm_compute in Hc4. discriminate Hc4.
Qed.

(** A four-page document under a sliding-window override: four window
    calls and the consolidation call. *)
Lemma analysis_call_count_witness :
  ∃ new,
    calls (extract_rules_from_markdown echo_service "extracted_content.md"
             "extracted_rules.txt" (Some true) (world_with four_pages)).2
    = [] ++ new
    ∧ length new = 5%nat.
Proof.
  destruct (analysis_call_count echo_service "extracted_content.md"
              "extracted_rules.txt" (Some true) (world_with four_pages)
              four_pages _ eq_refl four_pages_parsed) as (Hcount & _ & _).
  destruct (Hcount "extracted_rules.txt"%string ltac:(by vm_compute))
    as (new & Hc & Hshape).
  assert (effective_strategy
            (Z.of_nat (size ({[ 1 := lit "alpha"; 2 := lit "beta";
                                3 := lit "gamma"; 4 := lit "delta" ]}
                             : gmap Z text))) (Some true)
          = SlidingWindow) as Hs by (by vm_compute).
  rewrite Hs in Hshape.
  destruct Hshape as (_ & reports & wnew & final & _ & _ & _ & _ & Hlen & _).
  exists new. split; [exact Hc|]. rewrite Hlen. by vm_compute.
Defined.

(** The third call raises: the run ends with that error and writes
    nothing. *)
Lemma stage2_all_or_nothing_witness :
  files (extract_rules_from_markdown flaky_service "extracted_content.md"
           "extracted_rules.txt" (Some true) (world_with four_pages)).2
  = files (world_with four_pages).
Proof.
  destruct (stage2_all_or_nothing flaky_service "extracted_content.md"
              "extracted_rules.txt" (Some true) (world_with four_pages))
    as (new & _ & _ & Herr & _).
  apply (Herr (ServiceError (lit "rate limit"))). by vm_compute.
Defined.

(** On the contiguous four-page map the window of focus page 2 finds its
    three pages; on the pages 1, 2, 3, 5 the window of focus page 3 asks
    for page 4. *)
Lemma window_lookups_total_witness :
  (∃ entries,
     window_content {[ 1 := lit "alpha"; 2 := lit "beta"; 3 := lit "gamma";
                       4 := lit "delta" ]} (window_pages 4 2) = Ok entries
     ∧ length entries = length (window_pages 4 2))
  ∧ ∃ e, (extract_rules_from_markdown_sliding_window echo_service
            gapped_document (world_with gapped_document)).1 = Raise e.
Proof.
  split.
  - exact (proj2 (proj1 (window_lookups_total echo_service) _
                    four_pages_contiguous 2 ltac:(by vm_compute))).
  - destruct (proj2 (proj2 (window_lookups_total echo_service))
                gapped_document _ (world_with gapped_document)
                gapped_document_parsed
                ltac:(by vm_compute) gapped_not_contiguous) as (e & He & _).
    by exists e.
Defined.

Example gapped_document_key_error :
  (extract_rules_from_markdown_sliding_window echo_service
     gapped_document (world_with gapped_document)).1 = Raise (KeyError 4)
  ∧ length (calls (extract_rules_from_markdown_sliding_window echo_service
                     gapped_document (world_with gapped_document)).2) = 2%nat.
Proof. by vm_compute. Qed.

Example flaky_run_fails_whole :
  (extract_rules_from_markdown flaky_service "extracted_content.md"
     "extracted_rules.txt" (Some true) (world_with four_pages)).1
  = Raise (ServiceError (lit "rate limit")).
Proof. by vm_compute. Qed.

(** A page number of 4301 digits: the run ends with the [ValueError] of
    the parser, without a call and without a file. *)
Example long_page_number_run :
  extract_rules_from_markdown echo_service "extracted_content.md"
    "extracted_rules.txt" None (world_with page_1_twice_long)
  = (Raise ValueError, world_with page_1_twice_long).
Proof.
  apply (run_value_error _ _ _ _ _ page_1_twice_long); [done|by vm_compute].
Qed.

End Stage2Examples.

(** ** Further properties of the page parser *)

Section ParserExtras.

Lemma findall_no_header (s : text) :
  occurs header_lit s = false → findall s = [].
Proof.
  induction s as [|c s IH]; [done|]. intros H.
  rewrite findall_eq, match_here_not_header.
  - apply IH. by eapply occurs_false_tail.
  - cbn [occurs] in H. by apply orb_false_iff in H as [? _].
Qed.

Lemma parsed_lookup_Some (s : text) (k : Z) (v : text) :
  parsed s !! k = Some v →
  ∃ m, m ∈ findall s ∧ digits_value m.1 = k ∧ v = strip m.2.
Proof.
  rewrite parsed_lookup.
  destruct (last (filter _ (findall s))) as [m|] eqn:Hlast; [|done].
  intros [= <-]. exists m.
  apply last_Some in Hlast as [l' Hl'].
  assert (m ∈ filter (fun m => digits_value m.1 = k) (findall s)) as Hin
    by (rewrite Hl'; apply elem_of_app; right; left).
  apply list_elem_of_filter in Hin as [Hk Hin]. done.
Qed.

(** An entry of the returned dict comes from a match whose page number
    converts. *)
Lemma parse_lookup_Some (s : text) (pages : gmap Z text) (k : Z) (v : text) :
  parse_markdown_by_pages s = Some pages → pages !! k = Some v →
  ∃ m, m ∈ findall s ∧ convertible m ∧ digits_value m.1 = k ∧ v = strip m.2.
Proof.
  intros [Hall ->]%parse_Some (m & Hin & Hk & Hv)%parsed_lookup_Some.
  exists m. split_and!; try done.
  rewrite Forall_forall in Hall. by apply Hall.
Qed.

Lemma digit_val_nonneg (c : ascii) : is_digit c = true → 0 <= digit_val c <= 9.
Proof.
  unfold is_digit, digit_val. intros [H1 H2]%andb_true_iff.
  apply N.leb_le in H1, H2. lia.
Qed.

Lemma int_fold_nonneg (ds : text) (acc : Z) :
  0 <= acc → forallb is_digit ds = true →
  0 <= fold_left (fun acc c => 10 * acc + digit_val c) ds acc.
Proof.
  revert acc. induction ds as [|d ds IH]; intros acc Hacc Hds; [done|].
  simpl in Hds. apply andb_true_iff in Hds as [Hd Hds].
  simpl. apply IH; [|done]. pose proof (digit_val_nonneg d Hd). lia.
Qed.

Lemma digits_value_nonneg (ds : text) :
  forallb is_digit ds = true → 0 <= digits_value ds.
Proof. intros Hds. by apply int_fold_nonneg. Qed.

(** *** [strip] *)

Lemma lstrip_split (s : text) :
  ∃ pre, s = pre ++ lstrip s ∧ forallb is_space pre = true.
Proof.
  induction s as [|c s (pre & Hs & Hpre)]; [by exists []|].
  cbn [lstrip]. destruct (is_space c) eqn:Hc.
  - exists (c :: pre). simpl. rewrite Hc, Hpre. by rewrite <- Hs.
  - by exists [].
Qed.

Lemma lstrip_head (s : text) (c : ascii) (r : text) :
  lstrip s = c :: r → is_space c = false.
Proof.
  induction s as [|x s IH]; [done|]. cbn [lstrip].
  destruct (is_space x) eqn:Hx; [done|]. by intros [= -> _].
Qed.

Lemma lstrip_fixed (s : text) :
  (∀ c r, s = c :: r → is_space c = false) → lstrip s = s.
Proof.
  destruct s as [|c s]; [done|]. intros H. cbn [lstrip].
  by rewrite (H c s eq_refl).
Qed.

Lemma lstrip_idem (s : text) : lstrip (lstrip s) = lstrip s.
Proof. apply lstrip_fixed. intros c r. apply lstrip_head. Qed.

Lemma rstrip_split (s : text) :
  ∃ suf, s = rstrip s ++ suf ∧ forallb is_space suf = true.
Proof.
  unfold rstrip. destruct (lstrip_split (rev s)) as (pre & Hs & Hpre).
  exists (rev pre). split.
  - rewrite <- rev_app_distr, <- Hs. by rewrite rev_involutive.
  - rewrite forallb_forall in Hpre. apply forallb_forall.
    intros c Hc%in_rev. by apply Hpre.
Qed.

Lemma rstrip_idem (s : text) : rstrip (rstrip s) = rstrip s.
Proof. unfold rstrip. by rewrite rev_involutive, lstrip_idem. Qed.

Lemma rstrip_keeps_head (s : text) :
  (∀ c r, s = c :: r → is_space c = false) →
  ∀ c r, rstrip s = c :: r → is_space c = false.
Proof.
  intros Hs c r Hr. destruct (rstrip_split s) as (suf & Hsplit & _).
  rewrite Hr in Hsplit. by apply (Hs c (r ++ suf)).
Qed.

Lemma strip_idem (s : text) : strip (strip s) = strip s.
Proof.
  unfold strip. rewrite (lstrip_fixed (rstrip (lstrip s))).
  - apply rstrip_idem.
  - apply rstrip_keeps_head. intros c r. apply lstrip_head.
Qed.

(** [s.strip()] is a substring of [s]. *)
Lemma strip_split (s : text) : ∃ pre suf, s = pre ++ strip s ++ suf.
Proof.
  destruct (lstrip_split s) as (pre & Hs & _).
  destruct (rstrip_split (lstrip s)) as (suf & Hl & _).
  exists pre, suf. unfold strip. by rewrite <- Hl.
Qed.

(** *** What the parsed map holds *)

Lemma first_separator_no_occurrence (c rest : text) :
  first_separator_at c rest → occurs separator c = false.
Proof.
  intros [_ Hk]. destruct (occurs separator c) eqn:Hocc; [|done].
  apply occurs_spec in Hocc as (a & b & ->).
  specialize (Hk (length a)). rewrite <- !app_assoc, drop_app_length in Hk.
  rewrite starts_with_app in Hk. apply Hk.
  rewrite !length_app. simpl. lia.
Qed.

(** X1: a text in which [## Page ] does not occur, the empty text among
    them, gives no match, and the parser returns the empty map. *)
Theorem parse_without_header (s : text) :
  occurs header_lit s = false →
  findall s = [] ∧ parse_markdown_by_pages s = Some ∅.
Proof.
  intros H%findall_no_header. split; [done|].
  unfold parse_markdown_by_pages. by rewrite H.
Qed.

Lemma parse_without_header_witness :
  parse_markdown_by_pages (lit "# Title" ++ nl ++ nl ++ lit "Page 1 of 2")
  = Some ∅.
Proof.
  exact (proj2 (parse_without_header
                  (lit "# Title" ++ nl ++ nl ++ lit "Page 1 of 2") eq_refl)).
Defined.

(** X2: every key of the map the parser returns is a non-negative
    integer, the value [int] gives for a non-empty run of at most 4300
    decimal digits that stands in the text between [## Page ] and two
    newlines. *)
Theorem parsed_keys_from_headers (s : text) (pages : gmap Z text) (k : Z)
    (v : text) :
  parse_markdown_by_pages s = Some pages → pages !! k = Some v →
  0 <= k
  ∧ ∃ ds, ds ≠ [] ∧ forallb is_digit ds = true
          ∧ (length ds <= int_max_str_digits)%nat
          ∧ int_of_digits ds = Some k
          ∧ occurs (header_lit ++ ds ++ nl ++ nl) s = true.
Proof.
  intros Hparse (m & Hin & Hconv & <- & _)%(parse_lookup_Some _ _ _ _ Hparse).
  pose proof (findall_sound s) as Hsound. rewrite Forall_forall in Hsound.
  destruct (Hsound m Hin) as (pre & rest & Hs & Hne & Hds & _).
  split; [by apply digits_value_nonneg|].
  exists m.1. split_and!; try done.
  - by apply int_of_digits_Some.
  - apply occurs_spec. exists pre, (m.2 ++ rest).
    rewrite Hs. by rewrite <- !app_assoc.
Qed.

Lemma parsed_keys_from_headers_witness :
  0 <= 7
  ∧ ∃ ds, ds ≠ [] ∧ forallb is_digit ds = true
          ∧ (length ds <= int_max_str_digits)%nat
          ∧ int_of_digits ds = Some 7
          ∧ occurs (header_lit ++ ds ++ nl ++ nl) twice_page_7 = true.
Proof.
  exact (parsed_keys_from_headers twice_page_7 {[ 7 := lit "new" ]} 7
           (lit "new") eq_refl eq_refl).
Defined.

(** X3: every value of the map the parser returns is trimmed (stripping
    it again changes nothing), is a substring of the input, and does not
    contain the separator [\n\n---\n\n]. *)
Theorem parsed_values_trimmed (s : text) (pages : gmap Z text) (k : Z)
    (v : text) :
  parse_markdown_by_pages s = Some pages → pages !! k = Some v →
  strip v = v ∧ occurs v s = true ∧ occurs separator v = false.
Proof.
  intros Hparse (m & Hin & _ & _ & ->)%(parse_lookup_Some _ _ _ _ Hparse).
  pose proof (findall_sound s) as Hsound. rewrite Forall_forall in Hsound.
  destruct (Hsound m Hin) as (pre & rest & Hs & _ & _ & Hsep).
  destruct (strip_split m.2) as (p1 & p2 & Hm).
  split_and!.
  - apply strip_idem.
  - apply occurs_spec.
    exists (pre ++ header_lit ++ m.1 ++ nl ++ nl ++ p1), (p2 ++ rest).
    rewrite Hs. rewrite Hm at 1. by rewrite <- !app_assoc.
  - apply first_separator_no_occurrence in Hsep.
    destruct (occurs separator (strip m.2)) eqn:Hocc; [|done].
    apply (occurs_infix _ p1 _ p2) in Hocc. rewrite <- Hm in Hocc. congruence.
Qed.

Lemma parsed_values_trimmed_witness :
  strip (lit "new") = lit "new" ∧ occurs (lit "new") twice_page_7 = true
  ∧ occurs separator (lit "new") = false.
Proof.
  exact (parsed_values_trimmed twice_page_7 {[ 7 := lit "new" ]} 7 (lit "new")
           eq_refl eq_refl).
Defined.

Lemma findall_length_bound (s : text) :
  (11 * length (findall s) <= length s)%nat.
Proof.
  remember (length s) as n eqn:Hn. revert s Hn.
  induction n as [n IH] using lt_wf_ind; intros s ->.
  rewrite findall_eq.
  destruct (match_here s) as [[[ds c] rest]|] eqn:E.
  - pose proof (match_here_length _ _ _ _ E) as Hlen.
    apply match_here_Some in E as (tail & -> & Hne & _ & Hl).
    apply lazy_until_sep_spec in Hl as [-> _].
    specialize (IH _ Hlen rest eq_refl).
    destruct ds as [|d ds]; [done|].
    clear Hlen. cbn [length]. rewrite !length_app. cbn [length].
    change (length header_lit) with 8%nat.
    change (length nl) with 1%nat. lia.
  - destruct s as [|x s]; [simpl; lia|].
    specialize (IH (length s) ltac:(simpl; lia) s eq_refl). simpl. lia.
Qed.

Lemma stored_pages_size (l : list (text * text)) (acc : gmap Z text) :
  (size (fold_left stored_page l acc) <= size acc + length l)%nat.
Proof.
  revert acc. induction l as [|m l IH]; intros acc; simpl; [lia|].
  assert (size (stored_page acc m) <= S (size acc))%nat as H.
  { unfold stored_page. rewrite map_size_insert.
    destruct (acc !! digits_value m.1); simpl; lia. }
  specialize (IH (stored_page acc m)). lia.
Qed.

(** X4: a page costs at least eleven characters of input: the map the
    parser returns for a text of n characters has at most n / 11
    entries, and never more entries than the pattern has matches. *)
Theorem parsed_size_bound (s : text) (pages : gmap Z text) :
  parse_markdown_by_pages s = Some pages →
  (size pages <= length (findall s))%nat
  ∧ (11 * size pages <= length s)%nat.
Proof.
  intros [_ ->]%parse_Some.
  assert (size (parsed s) <= length (findall s))%nat as H.
  { unfold parsed.
    etrans; [apply stored_pages_size|]. rewrite map_size_empty. lia. }
  split; [done|]. pose proof (findall_length_bound s). lia.
Qed.

Lemma parsed_size_bound_witness :
  (size ({[ 7%Z := lit "new" ]} : gmap Z text)
   <= length (findall twice_page_7))%nat
  ∧ (11 * size ({[ 7%Z := lit "new" ]} : gmap Z text)
     <= length twice_page_7)%nat.
Proof. exact (parsed_size_bound twice_page_7 {[ 7 := lit "new" ]} eq_refl). Defined.

End ParserExtras.

(** ** Further properties of the assembly of Module 1 *)

Section AssemblyExtras.

Import Module1.

Lemma assembled_ext (total : Z) (pages pages' : gmap Z text) :
  (∀ i, 1 <= i <= total → pages' !! i = pages !! i) →
  assembled_contents total pages' = assembled_contents total pages.
Proof.
  intros Hagree. unfold assembled_contents.
  apply list_fmap_ext. intros j i Hi. simpl.
  rewrite Hagree; [done|].
  apply list_elem_of_lookup_2, range_elem in Hi. lia.
Qed.

(** X5: the assembly loop writes exactly [total] page sections, numbered
    1, 2, ... in order, whatever the dict holds: a page number absent
    from the dict gets the content [[Missing]], entries of the dict under
    keys outside 1..total never reach the document, and for
    [total <= 0] the document is its two head lines alone. *)
Theorem assembly_marks_missing (name date : text) (total : Z)
    (pages : gmap Z text) :
  md_pieces name date total pages
  = md_head name date total ++ page_sections 1 (assembled_contents total pages)
  ∧ length (assembled_contents total pages) = Z.to_nat total
  ∧ (∀ j, (j < Z.to_nat total)%nat →
        assembled_contents total pages !! j
        = Some (default (lit "[Missing]") (pages !! (Z.of_nat j + 1))))
  ∧ (∀ pages', (∀ i, 1 <= i <= total → pages' !! i = pages !! i) →
        md_pieces name date total pages' = md_pieces name date total pages)
  ∧ (total <= 0 → md_pieces name date total pages = md_head name date total).
Proof.
  split_and!.
  - apply md_pieces_assembled.
  - apply assembled_length.
  - apply assembled_lookup.
  - intros pages' Hagree. rewrite !md_pieces_assembled.
    by rewrite (assembled_ext total pages pages').
  - intros Htotal. rewrite md_pieces_assembled.
    unfold assembled_contents. rewrite range_nil by lia.
    apply app_nil_r.
Qed.

Lemma assembly_marks_missing_witness :
  md_pieces (lit "a.pdf") (lit "today") 2 {[ 2 := lit "second"; 7 := lit "lost" ]}
  = md_head (lit "a.pdf") (lit "today") 2
    ++ page_sections 1 [lit "[Missing]"; lit "second"].
Proof.
  exact (proj1 (assembly_marks_missing (lit "a.pdf") (lit "today") 2
                  {[ 2 := lit "second"; 7 := lit "lost" ]})).
Defined.

End AssemblyExtras.

(** ** The document of stage 1 read back by the parser of stage 2 *)

Section DocumentExtras.

Import Module1.

Lemma hash_free_app (a b : text) :
  hash_free (a ++ b) = hash_free a && hash_free b.
Proof. unfold hash_free. apply forallb_app. Qed.

Lemma digits_hash_free (ds : text) :
  forallb is_digit ds = true → hash_free ds = true.
Proof.
  unfold hash_free. induction ds as [|d ds IH]; [done|]. simpl.
  intros [Hd Hds]%andb_true_iff. rewrite (IH Hds), andb_true_r.
  destruct (Ascii.eqb d "#") eqn:E; [|done].
  apply Ascii.eqb_eq in E. by subst d.
Qed.

Lemma str_of_int_hash_free (z : Z) : hash_free (str_of_int z) = true.
Proof.
  destruct z as [|p|p]; [done|by apply digits_hash_free, str_of_int_digits|].
  unfold str_of_int. simpl. unfold NilZero.string_of_uint.
  pose proof (DecimalPos.Unsigned.to_uint_nonnil p) as Hn.
  assert (hash_free (lit (NilEmpty.string_of_uint (Pos.to_uint p))) = true) as H
    by apply digits_hash_free, uint_digits.
  by destruct (Pos.to_uint p).
Qed.

Lemma findall_hash_free (pre s : text) :
  hash_free pre = true → findall (pre ++ s) = findall s.
Proof.
  unfold hash_free. induction pre as [|c pre IH]; [done|]. simpl.
  intros [Hc Hpre]%andb_true_iff. rewrite findall_skip; [by apply IH|].
  intros ->. done.
Qed.

(** The two head lines hold no page header when the file name and the
    time stamp hold no [#]. *)
Lemma findall_head (name date : text) (total : Z) (s : text) :
  hash_free name = true → hash_free date = true →
  findall (concat (md_head name date total) ++ s) = findall s.
Proof.
  intros Hname Hdate. unfold md_head. cbn [concat].
  rewrite app_nil_r, <- !app_assoc.
  change (lit "# " ++ ?t) with ("#"%char :: " "%char :: t).
  rewrite findall_eq, match_here_not_header by reflexivity.
  rewrite (app_comm_cons _ _ " "%char).
  repeat rewrite app_assoc. rewrite findall_hash_free; [done|].
  rewrite !hash_free_app. cbn [hash_free forallb].
  fold (hash_free name). fold (hash_free date).
  by rewrite Hname, Hdate, str_of_int_hash_free.
Qed.

Lemma parse_document_lookup (name date : text) (total : Z)
    (pages : gmap Z text) (i : Z) :
  hash_free name = true → hash_free date = true →
  Forall (fun c => first_separator_at c separator)
         (assembled_contents total pages) →
  parsed (document (md_pieces name date total pages)) !! i
  = if decide (1 <= i <= total)
    then Some (strip (default (lit "[Missing]") (pages !! i))) else None.
Proof.
  intros Hname Hdate Hclean. unfold parsed.
  rewrite document_text, findall_head, findall_sections by done.
  rewrite store_sections_lookup, lookup_empty, assembled_length by done.
  repeat case_decide; try lia; try done.
  rewrite assembled_lookup by lia. simpl. do 4 f_equal. lia.
Qed.

Lemma parse_document (name date : text) (total : Z) (pages : gmap Z text) :
  hash_free name = true → hash_free date = true →
  Forall (fun c => first_separator_at c separator)
         (assembled_contents total pages) →
  parsed (document (md_pieces name date total pages))
  = strip <$> page_map (assembled_contents total pages).
Proof.
  intros Hname Hdate Hclean. apply map_eq. intros i.
  rewrite parse_document_lookup, lookup_fmap, page_map_lookup by done.
  rewrite assembled_length.
  repeat case_decide; try lia; try done.
  rewrite assembled_lookup by lia. simpl. do 4 f_equal. lia.
Qed.

Lemma parse_document_size (name date : text) (total : Z) (pages : gmap Z text) :
  hash_free name = true → hash_free date = true →
  Forall (fun c => first_separator_at c separator)
         (assembled_contents total pages) →
  size (parsed (document (md_pieces name date total pages)))
  = Z.to_nat total.
Proof.
  intros Hname Hdate Hclean. rewrite parse_document by done.
  by rewrite map_size_fmap, page_map_size, assembled_length.
Qed.

Lemma parse_document_contiguous (name date : text) (total : Z)
    (pages : gmap Z text) :
  hash_free name = true → hash_free date = true →
  Forall (fun c => first_separator_at c separator)
         (assembled_contents total pages) →
  contiguous
    (parsed (document (md_pieces name date total pages))).
Proof.
  intros Hname Hdate Hclean i.
  rewrite parse_document_size, parse_document_lookup by done.
  case_decide as Hi.
  - split; [lia|done].
  - split; [by intros [? ?]|lia].
Qed.

Lemma strip_fixed (c1 c2 : ascii) (mid : text) :
  is_space c1 = false → is_space c2 = false →
  strip (c1 :: mid ++ [c2]) = c1 :: mid ++ [c2].
Proof.
  intros H1 H2. unfold strip.
  assert (lstrip (c1 :: mid ++ [c2]) = c1 :: mid ++ [c2]) as ->
    by (cbn [lstrip]; by rewrite H1).
  unfold rstrip.
  assert (rev (c1 :: mid ++ [c2]) = c2 :: rev (c1 :: mid)) as Hrev.
  { change (c1 :: mid ++ [c2]) with ((c1 :: mid) ++ [c2]).
    by rewrite rev_app_distr. }
  rewrite Hrev. cbn [lstrip]. rewrite H2, <- Hrev. apply rev_involutive.
Qed.

Lemma strip_marker (cause : text) :
  strip (lit "[Error: " ++ cause ++ lit "]") = lit "[Error: " ++ cause ++ lit "]".
Proof.
  change (lit "[Error: " ++ cause ++ lit "]")
    with ("["%char :: (lit "Error: " ++ cause) ++ ["]"%char]).
  by apply strip_fixed.
Qed.

Lemma str_digits_bound_pos : 1 <= str_digits_bound.
Proof.
  unfold str_digits_bound.
  assert (0 < 10 ^ Z.of_nat int_max_str_digits)
    by (apply Z.pow_pos_nonneg; lia).
  lia.
Qed.

(** The parser returns on the document of stage 1. *)
Lemma parse_document_ok (name date : text) (total : Z) (pages : gmap Z text) :
  hash_free name = true → hash_free date = true →
  Forall (fun c => first_separator_at c separator)
         (assembled_contents total pages) →
  total < str_digits_bound →
  parse_markdown_by_pages (document (md_pieces name date total pages))
  = Some (parsed (document (md_pieces name date total pages))).
Proof.
  intros Hname Hdate Hclean Hb. apply parse_ok.
  rewrite document_text, findall_head, findall_sections by done.
  apply section_matches_convertible; [lia|].
  rewrite assembled_length. pose proof str_digits_bound_pos. lia.
Qed.

(** X6: the document [pdf_to_markdown] writes is read back by
    [parse_markdown_by_pages] page for page.  When the file name and the
    time stamp hold no [#], no written page content has a separator
    starting inside it and the page count is below 10 ** 4300, the
    parser returns a map that has exactly the keys 1..total, the entry
    of page i is the stripped content written for page i ([[Missing]]
    for a page the dict lacks), and the map is contiguous, as the
    sliding-window loop needs. *)
Theorem stage1_document_parses (name date : text) (total : Z)
    (pages : gmap Z text) :
  hash_free name = true → hash_free date = true →
  Forall (fun c => first_separator_at c separator)
         (assembled_contents total pages) →
  total < str_digits_bound →
  ∃ read,
    parse_markdown_by_pages (document (md_pieces name date total pages))
    = Some read
    ∧ (∀ i, 1 <= i <= total →
            read !! i = Some (strip (default (lit "[Missing]") (pages !! i))))
    ∧ (∀ i, is_Some (read !! i) ↔ 1 <= i <= total)
    ∧ size read = Z.to_nat total
    ∧ contiguous read.
Proof.
  intros Hname Hdate Hclean Hb.
  exists (parsed (document (md_pieces name date total pages))).
  split; [by apply parse_document_ok|].
  set (read := parsed _).
  assert (∀ i, read !! i
               = if decide (1 <= i <= total)
                 then Some (strip (default (lit "[Missing]") (pages !! i)))
                 else None) as Hlookup
    by (intros i; by apply parse_document_lookup).
  assert (size read = Z.to_nat total) as Hsize
    by (by apply parse_document_size).
  assert (∀ i, is_Some (read !! i) ↔ 1 <= i <= total) as Hdom.
  { intros i. rewrite Hlookup. case_decide; [by split|].
    split; [by intros [? ?]|done]. }
  split_and!; try done.
  - intros i Hi. rewrite Hlookup. by rewrite decide_True.
  - intros i. rewrite Hdom, Hsize. lia.
Qed.

Lemma stage1_document_parses_witness :
  ∃ read,
    parse_markdown_by_pages
      (document (md_pieces (lit "a.pdf") (lit "today") 2
                   {[ 2 := lit " second " ]})) = Some read
    ∧ size read = 2%nat.
Proof.
  assert (Forall (fun c => first_separator_at c separator)
            (assembled_contents 2 {[ 2 := lit " second " ]})) as Hclean.
  { repeat constructor; apply first_separator_at_iff; reflexivity. }
  destruct (stage1_document_parses (lit "a.pdf") (lit "today") 2
              {[ 2 := lit " second " ]} eq_refl eq_refl Hclean
              ltac:(by vm_compute)) as (read & Hparse & _ & _ & Hsize & _).
  by exists read.
Defined.

End DocumentExtras.

(** ** Further properties of the sliding windows *)

Section WindowExtras.

Import Module2.

Lemma range_app (a b c : Z) :
  a <= b <= c → range a c = range a b ++ range b c.
Proof.
  intros H. unfold range.
  replace (c - a) with ((b - a) + (c - b)) by lia.
  rewrite seqZ_app by lia. do 2 f_equal. lia.
Qed.

Lemma range_singleton (a : Z) : range a (a + 1) = [a].
Proof. by rewrite range_cons, range_nil by lia. Qed.

Lemma window_length (P i : Z) :
  length (window_pages P i)
  = Z.to_nat (end_page P i - start_page i + 1).
Proof. unfold window_pages. rewrite range_length. f_equal. lia. Qed.

(** X12: a window holds the focus page and its neighbours that exist: for
    pages i and k of a P-page document, k is in the window of focus i
    exactly when k differs from i by at most one.  So a window has three
    pages for an inner focus page, two for the first and the last page,
    and one when the document has a single page; [window_size] plays no
    part. *)
Theorem window_neighbourhood (P i : Z) :
  1 <= i <= P →
  (∀ k, 1 <= k <= P → (k ∈ window_pages P i ↔ i - 1 <= k <= i + 1))
  ∧ (1 < i < P → length (window_pages P i) = 3%nat)
  ∧ (2 <= P → i = 1 ∨ i = P → length (window_pages P i) = 2%nat)
  ∧ (P = 1 → length (window_pages P i) = 1%nat)
  ∧ (1 <= length (window_pages P i) <= 3)%nat.
Proof.
  intros Hi. split_and!.
  - intros k Hk. rewrite window_pages_elem. unfold start_page, end_page. lia.
  - intros H. rewrite window_length. unfold start_page, end_page. lia.
  - intros HP H. rewrite window_length. unfold start_page, end_page. lia.
  - intros HP. rewrite window_length. unfold start_page, end_page. lia.
  - rewrite window_length. unfold start_page, end_page. lia.
  - rewrite window_length. unfold start_page, end_page. lia.
Qed.

Lemma window_neighbourhood_witness :
  length (window_pages 10 5) = 3%nat.
Proof.
  exact (proj1 (proj2 (window_neighbourhood 10 5 ltac:(lia))) ltac:(lia)).
Defined.

End WindowExtras.

(** ** Further properties of stage-2 runs *)

Section RunExtras.

Import Module2.

Context {service : Type}.
Variable create : request → service → outcome * service.

(** The subscript that raises is the first absent page of the window. *)
Lemma window_content_raise_first (pages : gmap Z text) (l : list Z) (e : exn) :
  window_content pages l = Raise e →
  ∃ l1 k l2, l = l1 ++ k :: l2 ∧ e = KeyError k ∧ pages !! k = None
             ∧ ∀ x, x ∈ l1 → is_Some (pages !! x).
Proof.
  induction l as [|x l IH]; simpl; [done|].
  destruct (pages !! x) as [c|] eqn:Hx.
  - destruct (window_content pages l) as [entries|e']; [done|].
    intros [= ->]. destruct (IH eq_refl) as (l1 & k & l2 & -> & -> & Hk & Hl1).
    exists (x :: l1), k, l2. split_and!; try done.
    intros y [->|Hy]%elem_of_cons; [by rewrite Hx|by apply Hl1].
  - intros [= <-]. exists [], x, l. split_and!; try done.
    by intros y Hy%not_elem_of_nil.
Qed.

Lemma range_split (a b : Z) (l1 : list Z) (x : Z) (l2 : list Z) :
  range a b = l1 ++ x :: l2 →
  x = a + Z.of_nat (length l1)
  ∧ ∀ y, a <= y < x → y ∈ l1.
Proof.
  intros Hsplit. unfold range in Hsplit.
  assert (x = a + Z.of_nat (length l1)) as Hx.
  { pose proof (list_lookup_middle l1 l2 x (length l1) eq_refl) as Hmid.
    rewrite <- Hsplit in Hmid. by apply lookup_seqZ in Hmid as [-> _]. }
  split; [done|]. intros y Hy.
  assert ((l1 ++ x :: l2) !! Z.to_nat (y - a) = Some y) as Hlook.
  { rewrite <- Hsplit. apply lookup_seqZ. split; [lia|].
    assert (Z.of_nat (length (l1 ++ x :: l2)) = Z.of_nat (Z.to_nat (b - a))) as Hlen
      by (by rewrite <- Hsplit, length_seqZ).
    rewrite length_app in Hlen. simpl in Hlen. lia. }
  rewrite lookup_app_l in Hlook by lia.
  by eapply list_elem_of_lookup_2.
Qed.

Lemma window_calls_present (pages : gmap Z text) (P : Z) (focus : list Z)
    (reports : list text) (new : list (request * outcome)) (i k : Z) :
  window_calls pages P focus reports new →
  i ∈ focus → k ∈ window_pages P i → is_Some (pages !! k).
Proof.
  intros [Hall _] Hi Hk.
  apply list_elem_of_lookup in Hi as [j Hj].
  destruct (Forall2_lookup_l _ _ _ _ _ Hall Hj) as (c & _ & Hreq).
  unfold window_request_of in Hreq.
  destruct (window_content pages (window_pages P i)) as [entries|] eqn:Hwc;
    [|done].
  apply (proj2 (window_content_ok pages (window_pages P i)));
    [by exists entries|done].
Qed.

(** X14: the [KeyError] of a gapped page map comes late.  Let k be the
    least page number among 1..P that the map the parser returned lacks,
    P > 3 being the size of the map.  With a service that does not
    raise, the sliding-window function sends the window requests of the
    focus pages 1..k-2, all of which return, and then raises [KeyError]
    for k while building the window of focus page k-1 (of focus page 1
    when k = 1); the answers obtained so far are lost and nothing is
    written. *)
Theorem key_error_after_windows (content : text) (pages : gmap Z text)
    (w : world service) (k : Z) :
  parse_markdown_by_pages content = Some pages →
  let P := Z.of_nat (size pages) in
  3 < P → never_raises create →
  1 <= k <= P → pages !! k = None →
  (∀ j, 1 <= j < k → is_Some (pages !! j)) →
  let run := extract_rules_from_markdown_sliding_window create content w in
  run.1 = Raise (KeyError k)
  ∧ files run.2 = files w
  ∧ ∃ reports new,
      calls run.2 = calls w ++ new
      ∧ length new = Z.to_nat (k - 2)
      ∧ window_calls pages P (range 1 (k - 1)) reports new.
Proof.
  intros Hparse P HP Hnever Hk Hnone Hleast run. subst run.
  rewrite (sliding_window_run create content pages Hparse).
  unfold analysis, effective_strategy, wants_sliding_window. cbv zeta. fold P.
  destruct (Z.leb_spec P 3) as [|_]; [exfalso; lia|].
  unfold windows_then_consolidate, bind.
  pose proof (window_loop_run create pages P (range 1 (P + 1)) [] w) as Hloop.
  cbv zeta in Hloop.
  destruct (window_loop create pages P (range 1 (P + 1)) [] w) as [r1 w1].
  simpl in Hloop. destruct Hloop as (Hf1 & new & Hc1 & Hans & Hres).
  destruct r1 as [exts|e].
  - exfalso. destruct Hres as (reports & _ & Hcalls).
    assert (is_Some (pages !! k)) as [c Hc].
    { eapply (window_calls_present pages P _ reports new k k); [done| |].
      - apply range_elem. lia.
      - by apply focus_in_window. }
    congruence.
  - destruct Hres as (done & i & rest & reports & pre & Hrange & Hcalls & Hend).
    destruct Hend as [[Hwc ->]|(req & cause & _ & -> & _)].
    2:{ exfalso. apply Forall_app in Hans as [_ Hans].
        rewrite Forall_singleton in Hans.
        by eapply never_raises_answered. }
    destruct (range_split _ _ _ _ _ Hrange) as [Hi Hbefore].
    assert (1 <= i <= P) as Hi_range.
    { assert (i ∈ range 1 (P + 1)) as Hin
        by (rewrite Hrange; apply elem_of_app; right; left).
      apply range_elem in Hin. lia. }
    apply window_content_raise_first in Hwc
      as (l1 & k' & l2 & Hwin & -> & Hnone' & Hl1).
    assert (k' ∈ window_pages P i) as Hk'win
      by (rewrite Hwin; apply elem_of_app; right; left).
    pose proof (window_in_document P i k' Hi_range Hk'win) as Hk'.
    assert (k <= k') as Hle.
    { destruct (Z.le_gt_cases k k') as [|Hlt]; [done|].
      destruct (Hleast k' ltac:(lia)) as [? ?]. congruence. }
    apply window_pages_elem in Hk'win as Hk'bounds.
    unfold start_page, end_page in Hk'bounds.
    (* no earlier window holds page k *)
    assert (i <= Z.max 1 (k - 1)) as Hi_le.
    { destruct (Z.le_gt_cases i (Z.max 1 (k - 1))) as [|Hgt]; [done|]. exfalso.
      assert (is_Some (pages !! k)) as [c Hc].
      { eapply (window_calls_present pages P done reports pre
                  (Z.max 1 (k - 1)) k); [done| |].
        - apply Hbefore. lia.
        - apply window_pages_elem. unfold start_page, end_page. lia. }
      congruence. }
    (* page k is in the window of focus i, and not before k' *)
    assert (k' = k) as ->.
    { assert (k ∈ window_pages P i) as Hkwin
        by (apply window_pages_elem; unfold start_page, end_page; lia).
      unfold window_pages in Hwin.
      destruct (range_split _ _ _ _ _ Hwin) as [Hk'eq Hbefore'].
      destruct (Z.le_gt_cases k' k) as [|Hlt]; [lia|]. exfalso.
      destruct (Hl1 k) as [c Hc]; [|congruence].
      apply Hbefore'. apply window_pages_elem in Hkwin.
      unfold start_page, end_page in *. lia. }
    simpl. split; [done|]. split; [done|].
    destruct (window_calls_length _ _ _ _ _ Hcalls) as [Hlen _].
    assert (i = Z.max 1 (k - 1)) as Hi_eq by lia.
    assert (done = range 1 (k - 1)) as ->.
    { assert (range 1 (P + 1) = range 1 i ++ range i (P + 1)) as Hsplit
        by (apply range_app; lia).
      rewrite Hrange in Hsplit.
      apply app_inj_1 in Hsplit as [Hdone _].
      - rewrite Hdone. destruct (Z.le_gt_cases k 1).
        + by rewrite !range_nil by lia.
        + f_equal. lia.
      - rewrite range_length. lia. }
    exists reports, pre. split_and!; try done.
    rewrite Hlen, range_length. lia.
Qed.

End RunExtras.

Lemma key_error_after_windows_witness :
  (Module2.extract_rules_from_markdown_sliding_window echo_service
     gapped_document (world_with gapped_document)).1
  = Module2.Raise (Module2.KeyError 4).
Proof.
  refine (proj1 (key_error_after_windows echo_service gapped_document _
                   (world_with gapped_document) 4 gapped_document_parsed
                   ltac:(by vm_compute) echo_never_raises
                   ltac:(by vm_compute) ltac:(by vm_compute) _)).
  intros j Hj.
  assert (j = 1 ∨ j = 2 ∨ j = 3) as [-> | [-> | ->]] by lia; vm_compute; by eexists.
Defined.

(** ** From the extraction of stage 1 to the page map of stage 2 *)

Section PipelineExtras.

Variable extraction_call : Z → text → outcome.

(** X16: what stage 2 sees of each page is what that page's own
    extraction gave.  When the file name and the time stamp hold no [#],
    no written content has a separator starting inside it and the page
    count is below 10 ** 4300, the parser returns on the document of
    [pdf_to_markdown] a map that holds, for a page whose call raised,
    the failure marker [[Error: <cause>]] verbatim; for a page whose
    call returned, the stripped content; and [[Missing]] for every page
    number beyond the images. *)
Theorem extraction_reaches_stage2 (name date : text) (total : Z)
    (images : list text) (W : Z) (out : text) :
  Module1.pdf_to_markdown extraction_call name date total images W out →
  hash_free name = true → hash_free date = true →
  Forall (fun c => first_separator_at c separator)
         (assembled_contents total
            (page_map (extracted extraction_call images))) →
  total < str_digits_bound →
  ∃ read,
    parse_markdown_by_pages out = Some read
    ∧ (∀ k img cause,
         images !! k = Some img →
         extraction_call (Z.of_nat k + 1) img = Raised cause →
         Z.of_nat k + 1 <= total →
         read !! (Z.of_nat k + 1) = Some (lit "[Error: " ++ cause ++ lit "]"))
    ∧ (∀ k img content,
         images !! k = Some img →
         extraction_call (Z.of_nat k + 1) img = Returned content →
         Z.of_nat k + 1 <= total →
         read !! (Z.of_nat k + 1) = Some (strip content))
    ∧ (∀ i, Z.of_nat (length images) < i <= total →
            read !! i = Some (lit "[Missing]"))
    ∧ size read = Z.to_nat total.
Proof.
  intros (pages & Hpages & ->) Hname Hdate Hclean Hb.
  apply extract_parallel_results in Hpages as ->.
  eexists. split; [by apply parse_document_ok|].
  split_and!.
  - intros k img cause Hk Hcall Hle.
    rewrite parse_document_lookup, decide_True by (done || lia).
    rewrite page_map_lookup_index, (extracted_lookup _ _ _ _ Hk).
    rewrite (extract_page_raised _ _ _ cause Hcall).
    cbn [snd default]. unfold id.
    by rewrite strip_marker.
  - intros k img content Hk Hcall Hle.
    rewrite parse_document_lookup, decide_True by (done || lia).
    rewrite page_map_lookup_index, (extracted_lookup _ _ _ _ Hk).
    by rewrite (extract_page_returned _ _ _ content Hcall).
  - intros i Hi.
    rewrite parse_document_lookup, decide_True by (done || lia).
    rewrite page_map_lookup, extracted_length.
    by rewrite decide_False by lia.
  - by apply parse_document_size.
Qed.

End PipelineExtras.

Lemma extraction_reaches_stage2_witness :
  ∃ out read,
    Module1.pdf_to_markdown fails_on_page_2 (lit "a.pdf") (lit "today") 3
      three_images 2 out
    ∧ parse_markdown_by_pages out = Some read
    ∧ read !! 2 = Some (lit "[Error: timeout]").
Proof.
  destruct (extract_parallel_returns fails_on_page_2 three_images 2 ltac:(lia))
    as [pages Hpages].
  assert (Module1.pdf_to_markdown fails_on_page_2 (lit "a.pdf") (lit "today") 3
            three_images 2
            (Module1.document
               (Module1.md_pieces (lit "a.pdf") (lit "today") 3 pages))) as Hrun
    by (by exists pages).
  assert (Forall (fun c => first_separator_at c separator)
            (assembled_contents 3
               (page_map (extracted fails_on_page_2 three_images)))) as Hclean.
  { repeat constructor; apply first_separator_at_iff; reflexivity. }
  destruct (extraction_reaches_stage2 fails_on_page_2 _ _ _ _ _ _
              Hrun eq_refl eq_refl Hclean ltac:(by vm_compute))
    as (read & Hparse & Hraised & _).
  eexists _, read. split; [exact Hrun|]. split; [exact Hparse|].
  exact (Hraised 1%nat (lit "img2") (lit "timeout") eq_refl eq_refl ltac:(lia)).
Defined.
